(** * Hybrid attributes: a model of [lib/sqlalchemy/ext/hybrid.py]

    The module defines a descriptor, [hybrid_property], whose behaviour
    depends on whether it is reached through an instance or through the
    owning class, together with the comparator classes [Comparator] and
    [ExprComparator] that stand for the class-level expression.

    The model follows the Python object model closely enough for the
    code to be transcribed line by line:

    - objects live in a heap and are compared by address ([is]);
    - every object has a [__dict__] and a table of attributes found
      outside of it (members of built-in types, class attributes);
    - the module's own functions are state-passing computations over the
      heap; calling anything whose body is not part of the module (the
      getter, the setter, an operator, the ORM's proxy factory ...) is an
      event of the computation, answered by the environment. *)

From Stdlib Require Import ZArith String.
From stdpp Require Import gmap strings list fin_maps.

Local Open Scope string_scope.

(** ** Values and objects *)

Abbreviation addr := positive.

#[warnings="-register-all"]
Inductive pyval : Type :=
| VNone
| VBool (b : bool)
| VInt (n : Z)
| VStr (s : string)
| VTuple (xs : list pyval)
| VList (xs : list pyval)
| VObj (a : addr).

(** The classes the module tells apart with [isinstance], or creates;
    each stands for the class with its subclasses. *)
Inductive pytype : Type :=
| TFunction
| TType
| THybridProperty
| TComparator
| TExprComparator
| TQueryableAttribute
| TColumnElement
| TObject.

#[global] Instance pytype_eq_dec : EqDecision pytype.
Proof. solve_decision. Defined.

(** What a callable object runs.  The two closures the module creates are
    kept with the variables they capture; every other body is foreign. *)
Inductive code : Type :=
| Foreign
| Code_expr (self : addr) (expr : pyval)
| Code_expr_comparator (self : addr) (comparator proxy_attr : pyval).

Record object : Type := Object {
  ob_type : pytype;
  ob_dict : gmap string pyval;
  ob_slots : gmap string pyval;
  ob_code : code;
}.

Abbreviation heap := (gmap addr object).

Definition with_dict (d : gmap string pyval) (o : object) : object :=
  Object (ob_type o) d (ob_slots o) (ob_code o).

Definition with_slots (s : gmap string pyval) (o : object) : object :=
  Object (ob_type o) (ob_dict o) s (ob_code o).

(** [x is None] *)
Definition is_None (v : pyval) : bool :=
  match v with VNone => true | _ => false end.

(** [v is a], for an object [a] *)
Definition is_obj (v : pyval) (a : addr) : bool :=
  match v with VObj b => bool_decide (b = a) | _ => false end.

(** Truth value of a value, as the operator [or] tests it. *)
Definition truthy (v : pyval) : bool :=
  match v with
  | VNone => false
  | VBool b => b
  | VInt n => negb (Z.eqb n 0)
  | VStr s => negb (String.eqb s "")
  | VTuple xs | VList xs => match xs with [] => false | _ => true end
  | VObj _ => true
  end.

(** [str.startswith] *)
Definition startswith (s p : string) : bool := String.prefix p s.

(** ** Exceptions, events and computations *)

Inductive exn : Type :=
| AttributeError (msg : string)
| TypeError (msg : string)
| Raised (payload : pyval).

Inductive result (A : Type) : Type :=
| Ok (a : A)
| Exn (e : exn).
Arguments Ok {A} a.
Arguments Exn {A} e.

(** What a call event calls. *)
Inductive callee : Type :=
| Fn (f : pyval)
| Method (recv : pyval) (name : string)
| Lib (name : string).

(** A computation is a tree of call events; each event is answered with a
    value or with an exception. *)
Inductive prog (R : Type) : Type :=
| Ret (r : R)
| Call (c : callee) (args : list pyval) (kwargs : list (string * pyval))
       (k : result pyval -> prog R).
Arguments Ret {R} r.
Arguments Call {R} c args kwargs k.

Fixpoint pbind {R S : Type} (p : prog R) (f : R -> prog S) : prog S :=
  match p with
  | Ret r => f r
  | Call c args kwargs k => Call c args kwargs (fun x => pbind (k x) f)
  end.

Definition M (A : Type) : Type := heap -> prog (result A * heap).

Definition ret {A : Type} (a : A) : M A := fun h => Ret (Ok a, h).

Definition raise {A : Type} (e : exn) : M A := fun h => Ret (Exn e, h).

Definition propagate {A B : Type} (f : A -> M B) (rh : result A * heap)
  : prog (result B * heap) :=
  match rh.1 with
  | Ok a => f a rh.2
  | Exn e => Ret (Exn e, rh.2)
  end.

Definition bind {A B : Type} (m : M A) (f : A -> M B) : M B :=
  fun h => pbind (m h) (propagate f).

Declare Scope py_scope.
Delimit Scope py_scope with py.
Notation "x <- m ;; k" := (bind m (fun x => k))
  (at level 100, m at next level, right associativity) : py_scope.
Notation "m ;;; k" := (bind m (fun _ => k))
  (at level 100, right associativity) : py_scope.
Local Open Scope py_scope.

(** Calling a foreign callable: one event; an exception of the callee
    propagates. *)
Definition call (c : callee) (args : list pyval) (kwargs : list (string * pyval))
  : M pyval :=
  fun h => Call c args kwargs (fun x => Ret (x, h)).

(** Running a computation against an environment that answers the events,
    with a state [W] of its own. *)
Definition handler (W : Type) : Type :=
  W -> callee -> list pyval -> list (string * pyval) -> result pyval * W.

Fixpoint run {W R : Type} (env : handler W) (p : prog R) (w : W) : R * W :=
  match p with
  | Ret r => (r, w)
  | Call c args kwargs k =>
      let rw := env w c args kwargs in run env (k rw.1) rw.2
  end.

(** The events a computation performs itself, on some run. *)
Inductive calls {R : Type} : prog R -> callee -> list pyval -> list (string * pyval) -> Prop :=
| calls_here c args kwargs k :
    calls (Call c args kwargs k) c args kwargs
| calls_later c args kwargs k x c' args' kwargs' :
    calls (k x) c' args' kwargs' ->
    calls (Call c args kwargs k) c' args' kwargs'.

(** The outcomes a computation can end with, on some run. *)
Inductive returns {R : Type} : prog R -> R -> Prop :=
| returns_Ret r : returns (Ret r) r
| returns_Call c args kwargs k x r :
    returns (k x) r -> returns (Call c args kwargs k) r.

(** ** Attribute access *)

(** Attribute lookup on a value: the instance dictionary, then what lies
    outside of it; every object answers [__doc__], with [None] when it
    has no docstring.  Immediate values carry no attribute here. *)
Definition getattr_opt (h : heap) (v : pyval) (name : string) : option pyval :=
  match v with
  | VObj a =>
      match h !! a with
      | Some o =>
          match ob_dict o !! name with
          | Some x => Some x
          | None =>
              match ob_slots o !! name with
              | Some x => Some x
              | None => if String.eqb name "__doc__" then Some VNone else None
              end
          end
      | None => None
      end
  | _ => None
  end.

Definition getattr (v : pyval) (name : string) : M pyval :=
  fun h => match getattr_opt h v name with
           | Some x => ret x h
           | None => raise (AttributeError name) h
           end.

(** [hasattr] *)
Definition hasattr (h : heap) (v : pyval) (name : string) : bool :=
  bool_decide (is_Some (getattr_opt h v name)).

(** The attributes a type keeps outside of [__dict__] and lets one assign. *)
Definition members (t : pytype) : list string :=
  match t with
  | TFunction => ["__module__"; "__name__"; "__qualname__"; "__doc__"; "__annotations__"]
  | _ => []
  end.

Definition store_attr (name : string) (v : pyval) (o : object) : object :=
  if bool_decide (name ∈ members (ob_type o))
  then with_slots (<[name := v]> (ob_slots o)) o
  else with_dict (<[name := v]> (ob_dict o)) o.

Definition setattr (a : addr) (name : string) (v : pyval) : M unit :=
  fun h => match h !! a with
           | Some o => ret tt (<[a := store_attr name v o]> h)
           | None => raise (AttributeError name) h
           end.

(** [v.__dict__] *)
Definition dict_of (h : heap) (v : pyval) : option (gmap string pyval) :=
  match v with
  | VObj a => ob_dict <$> h !! a
  | _ => None
  end.

Definition get_dict (v : pyval) : M (gmap string pyval) :=
  fun h => match dict_of h v with
           | Some d => ret d h
           | None => raise (AttributeError "__dict__") h
           end.

(** [isinstance(v, t)] for the classes of [pytype] *)
Definition isinstance (h : heap) (v : pyval) (t : pytype) : bool :=
  match v with
  | VObj a =>
      match h !! a with
      | Some o => bool_decide (ob_type o = t)
      | None => false
      end
  | _ => false
  end.

(** Allocation of a new object, at an address not in use. *)
Definition alloc (o : object) : M addr :=
  fun h => let a := fresh (dom h) in ret a (<[a := o]> h).

(** [d.update(other)] on the dictionary of [a] *)
Definition update_dict (a : addr) (other : gmap string pyval) : M unit :=
  fun h => match h !! a with
           | Some o => ret tt (<[a := with_dict (other ∪ ob_dict o) o]> h)
           | None => raise (AttributeError "__dict__") h
           end.

(** [d[key]] on a dictionary keyed by names *)
Definition dict_get (d : gmap string pyval) (key : pyval) : option pyval :=
  match key with
  | VStr s => d !! s
  | _ => None
  end.

Definition code_of (h : heap) (v : pyval) : code :=
  match v with
  | VObj a => match h !! a with Some o => ob_code o | None => Foreign end
  | _ => Foreign
  end.

(** ** [util.update_wrapper]

    The function is [functools.update_wrapper] of the standard library:
    the attributes of [WRAPPER_ASSIGNMENTS] that the wrapped callable has
    are assigned to the wrapper, the wrapper's dictionary is updated with
    the wrapped callable's one, and [__wrapped__] is set last. *)

Definition WRAPPER_ASSIGNMENTS : list string :=
  ["__module__"; "__name__"; "__qualname__"; "__doc__"; "__annotations__"].

Fixpoint assign_attrs (wrapper : addr) (wrapped : pyval) (attrs : list string)
  : M unit :=
  match attrs with
  | [] => ret tt
  | attr :: rest =>
      fun h =>
        match getattr_opt h wrapped attr with
        | Some value =>
            (setattr wrapper attr value ;;; assign_attrs wrapper wrapped rest) h
        | None => assign_attrs wrapper wrapped rest h
        end
  end.

Definition update_wrapper (wrapper : addr) (wrapped : pyval) : M unit :=
  assign_attrs wrapper wrapped WRAPPER_ASSIGNMENTS ;;;
  d <- (fun h => ret (default ∅ (dict_of h wrapped)) h) ;;
  update_dict wrapper d ;;;
  setattr wrapper "__wrapped__" wrapped.

(** ** [util.memoized_property] *)

(** Modelled from the spec: the decorator [util.memoized_property] is not
    part of the module.  The spec has the expression-mode view memoized
    and not built on every access; the decorated function takes the
    descriptor alone, so what it returns is kept with the descriptor, in
    its dictionary under the property's name, and read from there
    afterwards. *)
Definition memoized_property (name : string) (fget : addr -> M pyval)
  (self : addr) : M pyval :=
  d <- get_dict (VObj self) ;;
  match d !! name with
  | Some memo => ret memo
  | None =>
      res <- fget self ;;
      update_dict self {[ name := res ]} ;;;
      ret res
  end.

(** Modelled from the spec: [sql._typing.is_has_clause_element] is not
    part of the module; it tells whether a value exposes the expression
    library's clause-extraction capability, the method
    [__clause_element__]. *)
Definition is_has_clause_element (h : heap) (v : pyval) : bool :=
  hasattr h v "__clause_element__".

(** ** class [Comparator] *)

Module Comparator.

Definition __init__ (self : addr) (expression : pyval) : M unit :=
  setattr self "expression" expression.

Definition new (expression : pyval) : M pyval :=
  self <- alloc (Object TComparator ∅ ∅ Foreign) ;;
  __init__ self expression ;;;
  ret (VObj self).

(** The assertions of the source are under [TYPE_CHECKING] and do not
    run. *)
Definition __clause_element__ (self : pyval) : M pyval :=
  expr <- getattr self "expression" ;;
  fun h =>
    if is_has_clause_element h expr
    then call (Method expr "__clause_element__") [] [] h
    else ret expr h.

Definition adapt_to_entity (self : pyval) (adapt_to_entity : pyval) : M pyval :=
  ret self.

End Comparator.

(** ** class [ExprComparator] *)

Module ExprComparator.

Definition __init__ (self : addr) (cls expression hybrid : pyval) : M unit :=
  setattr self "cls" cls ;;;
  setattr self "expression" expression ;;;
  setattr self "hybrid" hybrid.

Definition new (cls expression hybrid : pyval) : M pyval :=
  self <- alloc (Object TExprComparator ∅ ∅ Foreign) ;;
  __init__ self cls expression hybrid ;;;
  ret (VObj self).

Definition info (self : pyval) : M pyval :=
  hybrid <- getattr self "hybrid" ;;
  getattr hybrid "info".

Definition _bulk_update_tuples (self : pyval) (value : pyval) : M pyval :=
  expression <- getattr self "expression" ;;
  fun h =>
    if isinstance h expression TQueryableAttribute
    then call (Method expression "_bulk_update_tuples") [value] [] h
    else
      (hybrid <- getattr self "hybrid" ;;
       update_expr <- getattr hybrid "update_expr" ;;
       if negb (is_None update_expr)
       then
         cls <- getattr self "cls" ;;
         call (Fn update_expr) [cls; value] []
       else
         expression <- getattr self "expression" ;;
         ret (VList [VTuple [expression; value]])) h.

Definition property (self : pyval) : M pyval :=
  expression <- getattr self "expression" ;;
  getattr expression "property".

Definition operate (self : pyval) (op : pyval) (other : list pyval)
  (kwargs : list (string * pyval)) : M pyval :=
  expression <- getattr self "expression" ;;
  call (Fn op) (expression :: other) kwargs.

Definition reverse_operate (self : pyval) (op : pyval) (other : pyval)
  (kwargs : list (string * pyval)) : M pyval :=
  expression <- getattr self "expression" ;;
  call (Fn op) [other; expression] kwargs.

End ExprComparator.

(** ** class [hybrid_property] *)

Module hybrid_property.

(** Attributes found on the class. *)
Definition class_attrs : gmap string pyval :=
  {[ "is_attribute" := VBool true;
     "extension_type" := VStr "HYBRID_PROPERTY";
     "__doc__" := VStr "A decorator which allows definition of a Python descriptor with both
    instance-level and class-level behavior.

    " ]}.

(** The parameters of the constructor, after [self]. *)
Definition parameters : list string :=
  ["fget"; "fset"; "fdel"; "expr"; "custom_comparator"; "update_expr"].

Definition __init__ (self : addr)
  (fget fset fdel expr custom_comparator update_expr : pyval) : M unit :=
  setattr self "fget" fget ;;;
  setattr self "fset" fset ;;;
  setattr self "fdel" fdel ;;;
  setattr self "expr" expr ;;;
  setattr self "custom_comparator" custom_comparator ;;;
  setattr self "update_expr" update_expr ;;;
  update_wrapper self fget.

(** The class called with keyword arguments: the keywords are bound to
    the parameters, a new object is made and initialised. *)
Definition new (kw : gmap string pyval) : M pyval :=
  if bool_decide (dom kw ⊆@{gset string} list_to_set parameters)
  then
    match kw !! "fget" with
    | Some fget =>
        self <- alloc (Object THybridProperty ∅ class_attrs Foreign) ;;
        __init__ self fget
          (default VNone (kw !! "fset"))
          (default VNone (kw !! "fdel"))
          (default VNone (kw !! "expr"))
          (default VNone (kw !! "custom_comparator"))
          (default VNone (kw !! "update_expr")) ;;;
        ret (VObj self)
    | None =>
        raise (TypeError "__init__() missing 1 required positional argument: 'fget'")
    end
  else raise (TypeError "__init__() got an unexpected keyword argument").

Definition __set__ (self : addr) (instance value : pyval) : M pyval :=
  fset <- getattr (VObj self) "fset" ;;
  if is_None fset
  then raise (AttributeError "can't set attribute")
  else call (Fn fset) [instance; value] [] ;;; ret VNone.

Definition __delete__ (self : addr) (instance : pyval) : M pyval :=
  fdel <- getattr (VObj self) "fdel" ;;
  if is_None fdel
  then raise (AttributeError "can't delete attribute")
  else call (Fn fdel) [instance] [] ;;; ret VNone.

(** The public entries of a dictionary: [not key.startswith("_")]. *)
Definition public (kv : string * pyval) : Prop := startswith kv.1 "_" = false.

#[global] Instance public_dec kv : Decision (public kv).
Proof. unfold public. apply _. Defined.

(** [type(self)] is taken to be [hybrid_property] itself. *)
Definition _copy (self : addr) (kw : gmap string pyval) : M pyval :=
  d <- get_dict (VObj self) ;;
  let defaults := filter public d in
  let defaults := kw ∪ defaults in
  new defaults.

Definition overrides (self : addr) : M pyval := ret (VObj self).

Definition getter (self : addr) (fget : pyval) : M pyval :=
  _copy self {[ "fget" := fget ]}.

Definition setter (self : addr) (fset : pyval) : M pyval :=
  _copy self {[ "fset" := fset ]}.

Definition deleter (self : addr) (fdel : pyval) : M pyval :=
  _copy self {[ "fdel" := fdel ]}.

Definition expression (self : addr) (expr : pyval) : M pyval :=
  _copy self {[ "expr" := expr ]}.

Definition comparator (self : addr) (comparator : pyval) : M pyval :=
  _copy self {[ "custom_comparator" := comparator ]}.

Definition update_expression (self : addr) (meth : pyval) : M pyval :=
  _copy self {[ "update_expr" := meth ]}.

(** A function object made by a [def] inside the module. *)
Definition local_function (name qualname : string) (c : code) : object :=
  Object TFunction ∅
    {[ "__module__" := VStr "sqlalchemy.ext.hybrid";
       "__name__" := VStr name;
       "__qualname__" := VStr qualname;
       "__doc__" := VNone ]} c.

(** Body of [_expr], the function defined in [_get_expr]. *)
Definition _expr (self : addr) (expr : pyval) (cls : pyval) : M pyval :=
  e <- call (Fn expr) [cls] [] ;;
  ExprComparator.new cls e (VObj self).

(** [comparator(owner)]: the closure [_expr] runs its body, anything
    else is foreign. *)
Definition apply_comparator (comparator owner : pyval) : M pyval :=
  fun h =>
    match code_of h comparator with
    | Code_expr self expr => _expr self expr owner h
    | _ => call (Fn comparator) [owner] [] h
    end.

Section Name.

(** [attributes._UNKNOWN_ATTR_KEY], a constant of the ORM. *)
Variable _UNKNOWN_ATTR_KEY : pyval.

(** The [for] loop over [owner.__mro__], with its [else] clause. *)
Fixpoint mro_scan (self : addr) (mro : list pyval) : M pyval :=
  match mro with
  | [] => ret _UNKNOWN_ATTR_KEY
  | lookup :: rest =>
      name <- getattr (VObj self) "__name__" ;;
      members <- get_dict lookup ;;
      match dict_get members name with
      | Some entry =>
          if is_obj entry self
          then getattr (VObj self) "__name__"
          else mro_scan self rest
      | None => mro_scan self rest
      end
  end.

(** Body of [expr_comparator], the function defined in
    [_get_comparator]. *)
Definition expr_comparator (self : addr) (comparator proxy_attr : pyval)
  (owner : pyval) : M pyval :=
  mro <- getattr owner "__mro__" ;;
  name <- match mro with
          | VTuple classes => mro_scan self classes
          | _ => raise (TypeError "object is not iterable")
          end ;;
  c <- apply_comparator comparator owner ;;
  cdoc <- getattr comparator "__doc__" ;;
  doc <- (if truthy cdoc then ret cdoc else getattr (VObj self) "__doc__") ;;
  call (Fn proxy_attr) [owner; name; VObj self; c] [("doc", doc)].

Definition _get_comparator (self : addr) (comparator : pyval) : M pyval :=
  proxy_attr <- call (Lib "attributes.create_proxied_attribute") [VObj self] [] ;;
  f <- alloc (local_function "expr_comparator"
                "hybrid_property._get_comparator.<locals>.expr_comparator"
                (Code_expr_comparator self comparator proxy_attr)) ;;
  ret (VObj f).

Definition _get_expr (self : addr) (expr : pyval) : M pyval :=
  f <- alloc (local_function "_expr"
                "hybrid_property._get_expr.<locals>._expr"
                (Code_expr self expr)) ;;
  update_wrapper f expr ;;;
  _get_comparator self (VObj f).

(** The function under the decorator [util.memoized_property]. *)
Definition _expr_comparator_fget (self : addr) : M pyval :=
  custom_comparator <- getattr (VObj self) "custom_comparator" ;;
  if negb (is_None custom_comparator)
  then _get_comparator self custom_comparator
  else
    expr <- getattr (VObj self) "expr" ;;
    if negb (is_None expr)
    then _get_expr self expr
    else
      fget <- getattr (VObj self) "fget" ;;
      _get_expr self fget.

Definition _expr_comparator : addr -> M pyval :=
  memoized_property "_expr_comparator" _expr_comparator_fget.

(** [f(owner)] for the value of [self._expr_comparator]: the closure
    [expr_comparator] runs its body, anything else is foreign. *)
Definition apply_expr_comparator (f owner : pyval) : M pyval :=
  fun h =>
    match code_of h f with
    | Code_expr_comparator self comparator proxy_attr =>
        expr_comparator self comparator proxy_attr owner h
    | _ => call (Fn f) [owner] [] h
    end.

Definition __get__ (self : addr) (instance owner : pyval) : M pyval :=
  if is_None owner
  then ret (VObj self)
  else if is_None instance
  then
    f <- _expr_comparator self ;;
    apply_expr_comparator f owner
  else
    fget <- getattr (VObj self) "fget" ;;
    call (Fn fget) [instance] [].

End Name.

End hybrid_property.

(** ** Rebinding, as a whole *)

(** The six modifying decorators. *)
Inductive rebinding : Type :=
| Getter
| Setter
| Deleter
| Expression
| Comparator_
| Update_expression.

Definition rebind (r : rebinding) : addr -> pyval -> M pyval :=
  match r with
  | Getter => hybrid_property.getter
  | Setter => hybrid_property.setter
  | Deleter => hybrid_property.deleter
  | Expression => hybrid_property.expression
  | Comparator_ => hybrid_property.comparator
  | Update_expression => hybrid_property.update_expression
  end.

(** The parameter of the constructor a decorator passes. *)
Definition field (r : rebinding) : string :=
  match r with
  | Getter => "fget"
  | Setter => "fset"
  | Deleter => "fdel"
  | Expression => "expr"
  | Comparator_ => "custom_comparator"
  | Update_expression => "update_expr"
  end.

(** The getter of the descriptor a decorator returns. *)
Definition getter_after (r : rebinding) (v fget : pyval) : pyval :=
  match r with
  | Getter => v
  | _ => fget
  end.


(** A descriptor as the constructor leaves it: the six parameters are in
    its dictionary, and nothing else that is public. *)
Definition constructed (o : object) : Prop :=
  Forall (fun k => is_Some (ob_dict o !! k)) hybrid_property.parameters /\
  dom (filter hybrid_property.public (ob_dict o))
    ⊆@{gset string} list_to_set hybrid_property.parameters.

(** A callable that is an object of the heap and carries no public
    attribute of its own in its dictionary. *)
Definition plain (h : heap) (v : pyval) : Prop :=
  exists d, dict_of h v = Some d /\
            map_Forall (fun k _ => startswith k "_" = true) d.

(** ** Naming and the class-level view *)

(** The class [c] has, under the name [name], an entry that is the
    descriptor [self]. *)
Definition declares (h : heap) (self : addr) (name : pyval) (c : pyval) : Prop :=
  exists d, dict_of h c = Some d /\ dict_get d name = Some (VObj self).

(** The callable [apply_comparator] ends up calling. *)
Definition applied (h : heap) (comparator : pyval) : pyval :=
  match code_of h comparator with
  | Code_expr _ expr => expr
  | _ => comparator
  end.

(** A callable that is not one of the module's closures: an immediate
    value, or an object of the heap whose code is foreign. *)
Definition foreign (h : heap) (v : pyval) : Prop :=
  match v with
  | VObj a => exists o, h !! a = Some o /\ ob_code o = Foreign
  | _ => True
  end.

(** [extends h h']: the objects of [h] are in [h'] with the same type,
    code and attributes, but for the memoized [_expr_comparator]. *)
Definition extends (h h' : heap) : Prop :=
  forall a o, h !! a = Some o ->
    exists o', h' !! a = Some o' /\
               ob_type o' = ob_type o /\
               ob_code o' = ob_code o /\
               ob_slots o' = ob_slots o /\
               forall k, k <> "_expr_comparator" -> ob_dict o' !! k = ob_dict o !! k.

(** [f] is, in [h'], a closure [expr_comparator] of the descriptor [self]
    whose comparator ends up calling [target]. *)
Definition ready (h h' : heap) (self : addr) (target f : pyval) : Prop :=
  extends h h' /\
  exists comparator proxy_attr,
    code_of h' f = Code_expr_comparator self comparator proxy_attr /\
    applied h' comparator = target.

(** The memoized value, when there is one, is such a closure. *)
Definition memo_ok (h : heap) (self : addr) (o : object) (target : pyval) : Prop :=
  match ob_dict o !! "_expr_comparator" with
  | Some memo => ready h h self target memo
  | None => True
  end.

(** [behaves p P Q]: every call of [p] satisfies [P], every value [p]
    returns satisfies [Q] with the heap it leaves, and [p] can return a
    value. *)
Definition behaves {A : Type} (p : prog (result A * heap))
  (P : callee -> list pyval -> list (string * pyval) -> Prop)
  (Q : A -> heap -> Prop) : Prop :=
  (forall c args kwargs, calls p c args kwargs -> P c args kwargs) /\
  (forall x h', returns p (Ok x, h') -> Q x h') /\
  (exists x h', returns p (Ok x, h')).

(** The one call of the construction of the view. *)
Definition makes_proxy (self : addr) (c : callee) (args : list pyval)
  (kwargs : list (string * pyval)) : Prop :=
  c = Lib "attributes.create_proxied_attribute" /\ args = [VObj self] /\ kwargs = [].

(** The dictionary [__init__] leaves before [update_wrapper] runs. *)
Definition six_fields (d : gmap string pyval)
  (fget fset fdel expr custom_comparator update_expr : pyval)
  : gmap string pyval :=
  <["update_expr" := update_expr]>
    (<["custom_comparator" := custom_comparator]>
       (<["expr" := expr]>
          (<["fdel" := fdel]> (<["fset" := fset]> (<["fget" := fget]> d))))).

(** Computations that make no call and leave the heap alone. *)
Definition quiet {A : Type} (m : M A) : Prop :=
  forall h, exists r, m h = Ret (r, h).

(** ** An application, for the examples

    A class [Interval] over the class [object], with three hybrids:
    [radius], with a setter; [length], with an expression builder and an
    update-clause builder; and one bound under the name [value] whose
    getter is the function [_get_value]. *)

Module App.

Definition function (name qualname : string) : object :=
  Object TFunction ∅
    {[ "__module__" := VStr "app";
       "__name__" := VStr name;
       "__qualname__" := VStr qualname;
       "__doc__" := VNone ]} Foreign.

Definition class_ (members : gmap string pyval) (mro : list pyval) : object :=
  Object TType members {[ "__mro__" := VTuple mro ]} Foreign.

(** A descriptor as [hybrid_property.new] leaves it. *)
Definition hybrid (fget fset fdel expr custom_comparator update_expr : pyval)
  (name qualname : string) : object :=
  Object THybridProperty
    (<["__wrapped__" := fget]>
       (<["__doc__" := VNone]>
          (<["__qualname__" := VStr qualname]>
             (<["__name__" := VStr name]>
                (<["__module__" := VStr "app"]>
                   (six_fields ∅ fget fset fdel expr custom_comparator
                      update_expr))))))
    hybrid_property.class_attrs Foreign.

Definition bound_comparator (cls expression hybrid : pyval) : object :=
  Object TExprComparator
    (<["hybrid" := hybrid]> (<["expression" := expression]> {[ "cls" := cls ]}))
    ∅ Foreign.

Definition comparator (expression : pyval) : object :=
  Object TComparator {[ "expression" := expression ]} ∅ Foreign.

Definition radius : object :=
  hybrid (VObj 1) (VObj 2) VNone VNone VNone VNone "radius" "Interval.radius".

Definition length : object :=
  hybrid (VObj 4) VNone VNone (VObj 5) VNone (VObj 6) "length" "Interval.length".

Definition value : object :=
  hybrid (VObj 7) VNone VNone VNone VNone VNone "_get_value" "Interval._get_value".

Definition Interval : object :=
  class_ {[ "radius" := VObj 10; "length" := VObj 11; "value" := VObj 12 ]}
    [VObj 20; VObj 21].

Definition functions : heap :=
  <[1%positive := function "radius" "Interval.radius"]>
    (<[2%positive := function "radius" "Interval.radius"]>
       (<[3%positive := function "diameter" "Interval.diameter"]>
          (<[4%positive := function "length" "Interval.length"]>
             (<[5%positive := function "length" "Interval.length"]>
                (<[6%positive := function "length" "Interval.length"]>
                   (<[7%positive := function "_get_value" "Interval._get_value"]>
                      (<[8%positive := function "gt" "gt"]>
                         (<[9%positive := function "__clause_element__"
                                            "QueryableAttribute.__clause_element__"]>
                            ∅)))))))).

(** Address 30 is an expression node, 31 a mapped attribute, 40 to 42
    comparators bound to [Interval], 43 and 44 plain comparators, 60 the
    ORM's constant for an unknown name. *)
Definition world : heap :=
  <[10%positive := radius]>
    (<[11%positive := length]>
       (<[12%positive := value]>
          (<[20%positive := Interval]>
             (<[21%positive := class_ ∅ [VObj 21]]>
                (<[30%positive := Object TColumnElement ∅ ∅ Foreign]>
                   (<[31%positive := Object TQueryableAttribute ∅
                                       {[ "__clause_element__" := VObj 9 ]} Foreign]>
                      (<[40%positive := bound_comparator (VObj 20) (VObj 30) (VObj 10)]>
                         (<[41%positive := bound_comparator (VObj 20) (VObj 31) (VObj 11)]>
                            (<[42%positive := bound_comparator (VObj 20) (VObj 30) (VObj 11)]>
                               (<[43%positive := comparator (VInt 5)]>
                                  (<[44%positive := comparator (VObj 31)]>
                                     (<[60%positive := Object TObject ∅ ∅ Foreign]>
                                        functions)))))))))))).

Definition unknown : pyval := VObj 60.

(** Environments: every call is answered with its first argument, with
    its second argument, with the integer 5. *)
Definition answer_first : handler unit :=
  fun w _ args _ => (Ok (hd VNone args), w).

Definition answer_second : handler unit :=
  fun w _ args _ => (Ok (nth 1 args VNone), w).

Definition answer_five : handler unit :=
  fun w _ _ _ => (Ok (VInt 5), w).

(** The same, keeping the list of the calls made. *)
Definition recording : handler (list (callee * list pyval)) :=
  fun w c args _ => (Ok (VInt 5), app w [(c, args)]).

End App.

(** ** class [hybrid_method] *)

Module hybrid_method.

(** Attributes found on the class. *)
Definition class_attrs : gmap string pyval :=
  {[ "is_attribute" := VBool true;
     "extension_type" := VStr "HYBRID_METHOD";
     "__doc__" := VStr "A decorator which allows definition of a Python object method with both
    instance-level and class-level behavior.

    " ]}.

(** [v.name = x] *)
Definition setattr_value (v : pyval) (name : string) (x : pyval) : M unit :=
  match v with
  | VObj a => setattr a name x
  | _ => raise (AttributeError name)
  end.

Definition expression (self : addr) (expr : pyval) : M pyval :=
  setattr self "expr" expr ;;;
  e <- getattr (VObj self) "expr" ;;
  doc <- getattr e "__doc__" ;;
  (if negb (truthy doc)
   then
     func <- getattr (VObj self) "func" ;;
     fdoc <- getattr func "__doc__" ;;
     e <- getattr (VObj self) "expr" ;;
     setattr_value e "__doc__" fdoc
   else ret tt) ;;;
  ret (VObj self).

(** [expr or func] picks [expr] when it is true. *)
Definition __init__ (self : addr) (func expr : pyval) : M unit :=
  setattr self "func" func ;;;
  expression self (if truthy expr then expr else func) ;;;
  ret tt.

(** The class called: a new object is made and initialised. *)
Definition new (func expr : pyval) : M pyval :=
  self <- alloc (Object TObject ∅ class_attrs Foreign) ;;
  __init__ self func expr ;;;
  ret (VObj self).

Definition __get__ (self : addr) (instance owner : pyval) : M pyval :=
  if is_None instance
  then
    expr <- getattr (VObj self) "expr" ;;
    call (Method expr "__get__") [owner; owner] []
  else
    func <- getattr (VObj self) "func" ;;
    call (Method func "__get__") [instance; owner] [].

End hybrid_method.

(** ** [test/requirements.py]: [_chain_decorators_on] *)

Module requirements.

(** The [for] loop of [decorate], over the decorators as it meets them. *)
Fixpoint decorate_loop (decorators : list pyval) (fn : pyval) : M pyval :=
  match decorators with
  | [] => ret fn
  | decorator :: rest =>
      fn' <- call (Fn decorator) [fn] [] ;;
      decorate_loop rest fn'
  end.

(** [decorate], the function that [_chain_decorators_on] returns for the
    decorators it is given. *)
Definition decorate (decorators : list pyval) (fn : pyval) : M pyval :=
  decorate_loop (rev decorators) fn.

Definition _chain_decorators_on (decorators : list pyval) : pyval -> M pyval :=
  decorate decorators.

End requirements.

(** An environment in which calling [d] on [x] gives [apply d x], and
    which keeps the list of the calls made. *)
Definition applying (apply : pyval -> pyval -> result pyval)
  : handler (list (pyval * pyval)) :=
  fun w c args _ =>
    match c, args with
    | Fn d, [x] => (apply d x, app w [(d, x)])
    | _, _ => (Exn (TypeError "not callable"), w)
    end.

(** The calls of a chain of decorators in which calling [d] on [x] gives
    [ap d x], in the order they are made: the last decorator first. *)
Fixpoint chain_log (ap : pyval -> pyval -> pyval) (ds : list pyval) (fn : pyval)
  : list (pyval * pyval) :=
  match ds with
  | [] => []
  | d :: rest => chain_log ap rest fn ++ [(d, foldr ap fn rest)]
  end.

(** ** More of the application *)

Module Site.

(** A getter that carries a public attribute, [note]. *)
Definition annotated_getter : object :=
  Object TFunction {[ "note" := VInt 1 ]}
    {[ "__module__" := VStr "app";
       "__name__" := VStr "area";
       "__qualname__" := VStr "Interval.area";
       "__doc__" := VNone ]} Foreign.

(** A function with a docstring. *)
Definition documented (name qualname doc : string) : object :=
  Object TFunction ∅
    {[ "__module__" := VStr "app";
       "__name__" := VStr name;
       "__qualname__" := VStr qualname;
       "__doc__" := VStr doc ]} Foreign.

(** The hybrid [radius] after [info] has been put in its dictionary. *)
Definition radius_with_info : object :=
  with_dict (<["info" := VNone]> (ob_dict App.radius)) App.radius.

(** The hybrid [radius] after a class-level access: the closure of the
    view, at address 76, is memoized. *)
Definition radius_visited : object :=
  with_dict (<["_expr_comparator" := VObj 76]> (ob_dict App.radius)) App.radius.

(** A hybrid method [contains], whose function has a docstring. *)
Definition contains : object :=
  Object TObject (<["expr" := VObj 71]> {[ "func" := VObj 71 ]})
    hybrid_method.class_attrs Foreign.

(** The keywords of [hybrid_property(fget=...)] for two getters. *)
Definition area_keywords : gmap string pyval := {[ "fget" := VObj 74 ]}.

Definition diameter_keywords : gmap string pyval := {[ "fget" := VObj 3 ]}.

Definition world : heap :=
  <[70%positive := contains]>
    (<[71%positive := documented "contains" "Interval.contains" "True when the point is inside."]>
       (<[72%positive := App.function "contains" "Interval.contains"]>
          (<[73%positive := radius_with_info]>
             (<[74%positive := annotated_getter]>
                (<[75%positive := radius_visited]>
                   (<[76%positive := hybrid_property.local_function "expr_comparator"
                                       "hybrid_property._get_comparator.<locals>.expr_comparator"
                                       (Code_expr_comparator 75 (VObj 1) (VObj 60))]>
                      App.world)))))).

End Site.

(** * Properties *)

Import hybrid_property.

(** ** Computations *)

Lemma bind_Ok {A B : Type} (m : M A) (f : A -> M B) (h h' : heap) (a : A) :
  m h = Ret (Ok a, h') -> bind m f h = f a h'.
Proof. intros E. unfold bind. rewrite E. reflexivity. Qed.

Lemma bind_Exn {A B : Type} (m : M A) (f : A -> M B) (h h' : heap) (e : exn) :
  m h = Ret (Exn e, h') -> bind m f h = Ret (Exn e, h').
Proof. intros E. unfold bind. rewrite E. reflexivity. Qed.

Lemma getattr_Some (h : heap) (v : pyval) (name : string) (x : pyval) :
  getattr_opt h v name = Some x -> getattr v name h = Ret (Ok x, h).
Proof. intros E. unfold getattr. rewrite E. reflexivity. Qed.

Lemma getattr_opt_dict (h : heap) (a : addr) (o : object) (name : string) (x : pyval) :
  h !! a = Some o -> ob_dict o !! name = Some x ->
  getattr_opt h (VObj a) name = Some x.
Proof. intros Ha Hd. simpl. rewrite Ha, Hd. reflexivity. Qed.

Lemma getattr_dict (h : heap) (a : addr) (o : object) (name : string) (x : pyval) :
  h !! a = Some o -> ob_dict o !! name = Some x ->
  getattr (VObj a) name h = Ret (Ok x, h).
Proof. intros Ha Hd. apply getattr_Some. eapply getattr_opt_dict; eassumption. Qed.

Lemma is_None_true (v : pyval) : is_None v = true <-> v = VNone.
Proof. destruct v; simpl; split; congruence. Qed.

Lemma is_None_false (v : pyval) : is_None v = false <-> v <> VNone.
Proof. destruct v; simpl; split; congruence. Qed.

(** ** Descriptor protocol *)


(** C5.  [__set__] raises [AttributeError("can't set attribute")] at once,
    with no call made and the heap as it was, exactly when [fset] is
    [None]; otherwise it is the single call [fset(instance, value)].
    [__delete__] does the same with [fdel] and
    [AttributeError("can't delete attribute")]. *)
Theorem set_delete_guard (h : heap) (self : addr) (o : object) (fset fdel : pyval)
  (instance value : pyval) :
  h !! self = Some o ->
  ob_dict o !! "fset" = Some fset ->
  ob_dict o !! "fdel" = Some fdel ->
  (__set__ self instance value h
   = Ret (Exn (AttributeError "can't set attribute"), h) <-> fset = VNone) /\
  (fset <> VNone ->
   __set__ self instance value h
   = Call (Fn fset) [instance; value] []
       (fun x => match x with
                 | Ok _ => Ret (Ok VNone, h)
                 | Exn e => Ret (Exn e, h)
                 end)) /\
  (__delete__ self instance h
   = Ret (Exn (AttributeError "can't delete attribute"), h) <-> fdel = VNone) /\
  (fdel <> VNone ->
   __delete__ self instance h
   = Call (Fn fdel) [instance] []
       (fun x => match x with
                 | Ok _ => Ret (Ok VNone, h)
                 | Exn e => Ret (Exn e, h)
                 end)).
Proof.
  intros Hself Hfset Hfdel.
  assert (Hs : fset <> VNone ->
               __set__ self instance value h
               = Call (Fn fset) [instance; value] []
                   (fun x => match x with
                             | Ok _ => Ret (Ok VNone, h)
                             | Exn e => Ret (Exn e, h)
                             end)).
  { intros Hn. unfold __set__.
    rewrite (bind_Ok _ _ h h fset) by (eapply getattr_dict; eassumption).
    apply is_None_false in Hn. rewrite Hn. reflexivity. }
  assert (Hd : fdel <> VNone ->
               __delete__ self instance h
               = Call (Fn fdel) [instance] []
                   (fun x => match x with
                             | Ok _ => Ret (Ok VNone, h)
                             | Exn e => Ret (Exn e, h)
                             end)).
  { intros Hn. unfold __delete__.
    rewrite (bind_Ok _ _ h h fdel) by (eapply getattr_dict; eassumption).
    apply is_None_false in Hn. rewrite Hn. reflexivity. }
  split; [|split; [exact Hs|split; [|exact Hd]]].
  - split.
    + intros E. destruct (is_None fset) eqn:Hn; [apply is_None_true, Hn|].
      apply is_None_false in Hn. rewrite (Hs Hn) in E. discriminate.
    + intros ->. unfold __set__.
      rewrite (bind_Ok _ _ h h VNone) by (eapply getattr_dict; eassumption).
      reflexivity.
  - split.
    + intros E. destruct (is_None fdel) eqn:Hn; [apply is_None_true, Hn|].
      apply is_None_false in Hn. rewrite (Hd Hn) in E. discriminate.
    + intros ->. unfold __delete__.
      rewrite (bind_Ok _ _ h h VNone) by (eapply getattr_dict; eassumption).
      reflexivity.
Qed.

(** ** Comparators *)

(** C3.  [_bulk_update_tuples] resolves in order: an expression that is a
    [QueryableAttribute] gets the call of its own [_bulk_update_tuples],
    whether or not the hybrid has an [update_expr]; otherwise an
    [update_expr] that is not [None] is called with the class and the
    value and its answer is handed back as it is; otherwise the result is
    the list of the one pair of the expression and the value. *)
Theorem bulk_update_order (h : heap) (self : addr) (o : object)
  (cls expression hybrid update_expr value : pyval) :
  h !! self = Some o ->
  ob_dict o !! "cls" = Some cls ->
  ob_dict o !! "expression" = Some expression ->
  ob_dict o !! "hybrid" = Some hybrid ->
  getattr_opt h hybrid "update_expr" = Some update_expr ->
  (isinstance h expression TQueryableAttribute = true ->
   ExprComparator._bulk_update_tuples (VObj self) value h
   = Call (Method expression "_bulk_update_tuples") [value] []
       (fun x => Ret (x, h))) /\
  (isinstance h expression TQueryableAttribute = false ->
   update_expr <> VNone ->
   ExprComparator._bulk_update_tuples (VObj self) value h
   = Call (Fn update_expr) [cls; value] [] (fun x => Ret (x, h))) /\
  (isinstance h expression TQueryableAttribute = false ->
   update_expr = VNone ->
   ExprComparator._bulk_update_tuples (VObj self) value h
   = Ret (Ok (VList [VTuple [expression; value]]), h)).
Proof.
  intros Hself Hcls Hexpr Hhyb Hupd.
  unfold ExprComparator._bulk_update_tuples.
  rewrite (bind_Ok _ _ h h expression) by (eapply getattr_dict; eassumption).
  split; [|split].
  - intros ->. reflexivity.
  - intros -> Hn.
    rewrite (bind_Ok _ _ h h hybrid) by (eapply getattr_dict; eassumption).
    rewrite (bind_Ok _ _ h h update_expr) by (apply getattr_Some; assumption).
    apply is_None_false in Hn. rewrite Hn. simpl.
    rewrite (bind_Ok _ _ h h cls) by (eapply getattr_dict; eassumption).
    reflexivity.
  - intros -> ->.
    rewrite (bind_Ok _ _ h h hybrid) by (eapply getattr_dict; eassumption).
    rewrite (bind_Ok _ _ h h VNone) by (apply getattr_Some; assumption).
    simpl.
    rewrite (bind_Ok _ _ h h expression) by (eapply getattr_dict; eassumption).
    reflexivity.
Qed.

(** C9, as the code has it.  With no [update_expr] and an expression that
    is not a [QueryableAttribute], [_bulk_update_tuples] raises nothing
    and calls nothing: whatever the expression is, it comes back paired
    with the value. *)
Theorem bulk_update_passthrough (h : heap) (self : addr) (o : object)
  (expression hybrid value : pyval) :
  h !! self = Some o ->
  ob_dict o !! "expression" = Some expression ->
  ob_dict o !! "hybrid" = Some hybrid ->
  getattr_opt h hybrid "update_expr" = Some VNone ->
  isinstance h expression TQueryableAttribute = false ->
  ExprComparator._bulk_update_tuples (VObj self) value h
  = Ret (Ok (VList [VTuple [expression; value]]), h).
Proof.
  intros Hself Hexpr Hhyb Hupd Hq.
  unfold ExprComparator._bulk_update_tuples.
  rewrite (bind_Ok _ _ h h expression) by (eapply getattr_dict; eassumption).
  rewrite Hq.
  rewrite (bind_Ok _ _ h h hybrid) by (eapply getattr_dict; eassumption).
  rewrite (bind_Ok _ _ h h VNone) by (apply getattr_Some; assumption).
  simpl.
  rewrite (bind_Ok _ _ h h expression) by (eapply getattr_dict; eassumption).
  reflexivity.
Qed.

(** C4, as the code has it.  [operate] is the single call of [op] on the
    expression as the comparator holds it, followed by the operands as
    they were given, with the keyword arguments; [reverse_operate] is the
    single call of [op] on the other operand and then the expression.  The
    answer of [op] is handed back as it is and the comparator writes
    nothing to the heap. *)
Theorem operate_applies_op (h : heap) (self : addr) (o : object)
  (expression op : pyval) (kwargs : list (string * pyval)) :
  h !! self = Some o ->
  ob_dict o !! "expression" = Some expression ->
  (forall other : list pyval,
      ExprComparator.operate (VObj self) op other kwargs h
      = Call (Fn op) (expression :: other) kwargs (fun x => Ret (x, h))) /\
  (forall other : pyval,
      ExprComparator.reverse_operate (VObj self) op other kwargs h
      = Call (Fn op) [other; expression] kwargs (fun x => Ret (x, h))).
Proof.
  intros Hself Hexpr. split; intros other.
  - unfold ExprComparator.operate.
    rewrite (bind_Ok _ _ h h expression) by (eapply getattr_dict; eassumption).
    reflexivity.
  - unfold ExprComparator.reverse_operate.
    rewrite (bind_Ok _ _ h h expression) by (eapply getattr_dict; eassumption).
    reflexivity.
Qed.

(** C10, as the code has it.  [__clause_element__] has two cases and no
    check: an expression that has the method [__clause_element__] gets
    the call of it, whose answer is handed back as it is; any other
    expression is returned as it is. *)
Theorem clause_element_cases (h : heap) (self : addr) (o : object)
  (expression : pyval) :
  h !! self = Some o ->
  ob_dict o !! "expression" = Some expression ->
  (is_has_clause_element h expression = true ->
   Comparator.__clause_element__ (VObj self) h
   = Call (Method expression "__clause_element__") [] [] (fun x => Ret (x, h))) /\
  (is_has_clause_element h expression = false ->
   Comparator.__clause_element__ (VObj self) h = Ret (Ok expression, h)).
Proof.
  intros Hself Hexpr.
  unfold Comparator.__clause_element__.
  rewrite (bind_Ok _ _ h h expression) by (eapply getattr_dict; eassumption).
  split; intros ->; reflexivity.
Qed.

(** ** Heap updates *)

Lemma getattr_opt_insert_ne (h : heap) (a : addr) (o : object) (v : pyval)
  (name : string) :
  v <> VObj a -> getattr_opt (<[a := o]> h) v name = getattr_opt h v name.
Proof.
  intros Hne. destruct v; try reflexivity. simpl.
  rewrite lookup_insert_ne by congruence. reflexivity.
Qed.

Lemma dict_of_insert_ne (h : heap) (a : addr) (o : object) (v : pyval) :
  v <> VObj a -> dict_of (<[a := o]> h) v = dict_of h v.
Proof.
  intros Hne. destruct v; try reflexivity. simpl.
  rewrite lookup_insert_ne by congruence. reflexivity.
Qed.

Lemma setattr_insert (h : heap) (a : addr) (o : object) (name : string) (v : pyval) :
  setattr a name v (<[a := o]> h) = Ret (Ok tt, <[a := store_attr name v o]> h).
Proof.
  unfold setattr. rewrite lookup_insert_eq. unfold ret.
  rewrite insert_insert_eq. reflexivity.
Qed.

Lemma update_dict_insert (h : heap) (a : addr) (o : object) (d : gmap string pyval) :
  update_dict a d (<[a := o]> h)
  = Ret (Ok tt, <[a := with_dict (d ∪ ob_dict o) o]> h).
Proof.
  unfold update_dict. rewrite lookup_insert_eq. unfold ret.
  rewrite insert_insert_eq. reflexivity.
Qed.

Lemma store_attr_type (name : string) (v : pyval) (o : object) :
  ob_type (store_attr name v o) = ob_type o.
Proof. unfold store_attr. case_bool_decide; reflexivity. Qed.

Lemma store_attr_code (name : string) (v : pyval) (o : object) :
  ob_code (store_attr name v o) = ob_code o.
Proof. unfold store_attr. case_bool_decide; reflexivity. Qed.

Lemma store_attr_dict (name : string) (v : pyval) (o : object) :
  members (ob_type o) = [] ->
  store_attr name v o = with_dict (<[name := v]> (ob_dict o)) o.
Proof.
  intros Hm. unfold store_attr. rewrite Hm.
  rewrite bool_decide_eq_false_2 by apply not_elem_of_nil. reflexivity.
Qed.

(** The loop of [update_wrapper]: the wrapper keeps its type and its code;
    when it keeps all its attributes in its dictionary, the dictionary
    gets the listed attributes that the wrapped callable has. *)
Lemma assign_attrs_spec (a : addr) (wrapped : pyval) (attrs : list string)
  (h : heap) (o : object) :
  exists o',
    assign_attrs a wrapped attrs (<[a := o]> h) = Ret (Ok tt, <[a := o']> h) /\
    ob_type o' = ob_type o /\
    ob_code o' = ob_code o /\
    (wrapped <> VObj a -> members (ob_type o) = [] ->
     ob_slots o' = ob_slots o /\
     forall k, ob_dict o' !! k
               = match (if bool_decide (k ∈ attrs)
                        then getattr_opt h wrapped k else None) with
                 | Some v => Some v
                 | None => ob_dict o !! k
                 end).
Proof.
  revert o. induction attrs as [|attr rest IH]; intros o.
  - exists o. split; [reflexivity|]. split; [reflexivity|]. split; [reflexivity|].
    intros _ _. split; [reflexivity|]. intros k.
    rewrite bool_decide_eq_false_2 by apply not_elem_of_nil. reflexivity.
  - simpl. destruct (getattr_opt (<[a := o]> h) wrapped attr) as [value|] eqn:Hg.
    + destruct (IH (store_attr attr value o)) as (o' & Heq & Hty & Hco & Hd).
      exists o'. split; [|split; [|split]].
      * rewrite (bind_Ok _ _ _ (<[a := store_attr attr value o]> h) tt)
          by apply setattr_insert.
        exact Heq.
      * rewrite Hty. apply store_attr_type.
      * rewrite Hco. apply store_attr_code.
      * intros Hne Hm. rewrite getattr_opt_insert_ne in Hg by assumption.
        destruct Hd as [Hs Hd]; [assumption|rewrite store_attr_type; assumption|].
        rewrite store_attr_dict in Hs, Hd by assumption. simpl in Hs, Hd.
        split; [assumption|]. intros k. rewrite Hd.
        destruct (decide (k = attr)) as [->|Hk].
        -- rewrite (bool_decide_eq_true_2 (attr ∈ attr :: rest)) by left.
           rewrite Hg, lookup_insert_eq.
           case_bool_decide; reflexivity.
        -- rewrite lookup_insert_ne by congruence.
           destruct (decide (k ∈ rest)) as [Hin|Hin].
           ++ rewrite !bool_decide_eq_true_2; [reflexivity|right; assumption|assumption].
           ++ rewrite !bool_decide_eq_false_2; [reflexivity| |assumption].
              intros Hin'. apply elem_of_cons in Hin'. tauto.
    + destruct (IH o) as (o' & Heq & Hty & Hco & Hd).
      exists o'. split; [exact Heq|]. split; [exact Hty|]. split; [exact Hco|].
      intros Hne Hm. rewrite getattr_opt_insert_ne in Hg by assumption.
      destruct (Hd Hne Hm) as [Hs Hd']. split; [assumption|]. intros k.
      rewrite Hd'. destruct (decide (k = attr)) as [->|Hk].
      * rewrite (bool_decide_eq_true_2 (attr ∈ attr :: rest)) by left.
        rewrite Hg. case_bool_decide; reflexivity.
      * destruct (decide (k ∈ rest)) as [Hin|Hin].
        -- rewrite !bool_decide_eq_true_2; [reflexivity|right; assumption|assumption].
        -- rewrite !bool_decide_eq_false_2; [reflexivity| |assumption].
           intros Hin'. apply elem_of_cons in Hin'. tauto.
Qed.

Lemma update_wrapper_spec (a : addr) (wrapped : pyval) (h : heap) (o : object) :
  exists o',
    update_wrapper a wrapped (<[a := o]> h) = Ret (Ok tt, <[a := o']> h) /\
    ob_type o' = ob_type o /\
    ob_code o' = ob_code o /\
    (wrapped <> VObj a -> members (ob_type o) = [] ->
     ob_slots o' = ob_slots o /\
     forall k, ob_dict o' !! k
               = if String.eqb k "__wrapped__" then Some wrapped
                 else match default ∅ (dict_of h wrapped) !! k with
                      | Some v => Some v
                      | None =>
                          match (if bool_decide (k ∈ WRAPPER_ASSIGNMENTS)
                                 then getattr_opt h wrapped k else None) with
                          | Some v => Some v
                          | None => ob_dict o !! k
                          end
                      end).
Proof.
  destruct (assign_attrs_spec a wrapped WRAPPER_ASSIGNMENTS h o)
    as (o1 & Heq & Hty & Hco & Hd).
  exists (store_attr "__wrapped__" wrapped
            (with_dict (default ∅ (dict_of (<[a := o1]> h) wrapped) ∪ ob_dict o1) o1)).
  split; [|split; [|split]].
  - unfold update_wrapper.
    rewrite (bind_Ok _ _ _ (<[a := o1]> h) tt) by exact Heq.
    rewrite (bind_Ok _ _ _ (<[a := o1]> h) (default ∅ (dict_of (<[a := o1]> h) wrapped)))
      by reflexivity.
    rewrite (bind_Ok _ _ _ _ tt) by apply update_dict_insert.
    apply setattr_insert.
  - rewrite store_attr_type. simpl. exact Hty.
  - rewrite store_attr_code. simpl. exact Hco.
  - intros Hne Hm. destruct (Hd Hne Hm) as [Hs Hd'].
    rewrite store_attr_dict by (simpl; congruence). simpl.
    split; [assumption|]. intros k.
    rewrite dict_of_insert_ne by assumption.
    destruct (String.eqb_spec k "__wrapped__") as [->|Hk].
    + apply lookup_insert_eq.
    + rewrite lookup_insert_ne by congruence.
      rewrite lookup_union. rewrite Hd'.
      destruct (default ∅ (dict_of h wrapped) !! k) as [x|]; simpl.
      * destruct (match (if bool_decide (k ∈ WRAPPER_ASSIGNMENTS)
                         then getattr_opt h wrapped k else None) with
                  | Some v => Some v
                  | None => ob_dict o !! k
                  end); reflexivity.
      * destruct (match (if bool_decide (k ∈ WRAPPER_ASSIGNMENTS)
                         then getattr_opt h wrapped k else None) with
                  | Some v => Some v
                  | None => ob_dict o !! k
                  end); reflexivity.
Qed.

Lemma init_spec (a : addr) (h : heap) (o : object)
  (fget fset fdel expr cc ue : pyval) :
  members (ob_type o) = [] ->
  exists o',
    __init__ a fget fset fdel expr cc ue (<[a := o]> h)
    = Ret (Ok tt, <[a := o']> h) /\
    ob_type o' = ob_type o /\
    (fget <> VObj a ->
     forall k, ob_dict o' !! k
               = if String.eqb k "__wrapped__" then Some fget
                 else match default ∅ (dict_of h fget) !! k with
                      | Some v => Some v
                      | None =>
                          match (if bool_decide (k ∈ WRAPPER_ASSIGNMENTS)
                                 then getattr_opt h fget k else None) with
                          | Some v => Some v
                          | None =>
                              six_fields (ob_dict o) fget fset fdel expr cc ue !! k
                          end
                      end).
Proof.
  intros Hm.
  set (o6 := with_dict (six_fields (ob_dict o) fget fset fdel expr cc ue) o).
  destruct (update_wrapper_spec a fget h o6) as (o' & Heq & Hty & _ & Hd).
  exists o'. split; [|split].
  - unfold __init__.
    rewrite (bind_Ok _ _ _ _ tt) by apply setattr_insert.
    rewrite (bind_Ok _ _ _ _ tt) by apply setattr_insert.
    rewrite (bind_Ok _ _ _ _ tt) by apply setattr_insert.
    rewrite (bind_Ok _ _ _ _ tt) by apply setattr_insert.
    rewrite (bind_Ok _ _ _ _ tt) by apply setattr_insert.
    rewrite (bind_Ok _ _ _ _ tt) by apply setattr_insert.
    rewrite !store_attr_dict by (rewrite ?store_attr_type; simpl; assumption).
    exact Heq.
  - exact Hty.
  - intros Hne. destruct (Hd Hne Hm) as [_ Hd']. exact Hd'.
Qed.

Lemma fresh_None (h : heap) : h !! fresh (dom h) = None.
Proof. apply not_elem_of_dom. apply is_fresh. Qed.

Lemma parameters_public (k : string) :
  k ∈ parameters -> startswith k "_" = false.
Proof.
  intros Hk. unfold parameters in Hk.
  repeat (apply elem_of_cons in Hk; destruct Hk as [->|Hk]; [reflexivity|]).
  apply elem_of_nil in Hk. destruct Hk.
Qed.

Lemma parameters_not_assigned (k : string) :
  k ∈ parameters ->
  String.eqb k "__wrapped__" = false /\ bool_decide (k ∈ WRAPPER_ASSIGNMENTS) = false.
Proof.
  intros Hk. unfold parameters in Hk.
  repeat (apply elem_of_cons in Hk; destruct Hk as [->|Hk];
          [split; [reflexivity|vm_compute; reflexivity]|]).
  apply elem_of_nil in Hk. destruct Hk.
Qed.

Lemma six_fields_lookup (kw : gmap string pyval) (fget : pyval) (k : string) :
  kw !! "fget" = Some fget ->
  k ∈ parameters ->
  six_fields ∅ fget
    (default VNone (kw !! "fset")) (default VNone (kw !! "fdel"))
    (default VNone (kw !! "expr")) (default VNone (kw !! "custom_comparator"))
    (default VNone (kw !! "update_expr")) !! k
  = Some (default VNone (kw !! k)).
Proof.
  intros Hf Hk. unfold parameters in Hk. unfold six_fields.
  repeat (apply elem_of_cons in Hk; destruct Hk as [->|Hk];
          [rewrite ?Hf; simplify_map_eq; reflexivity|]).
  apply elem_of_nil in Hk. destruct Hk.
Qed.

(** The constructor: a new object at a fresh address; the six parameters
    are in its dictionary with the values passed, [None] by default; its
    [__name__] is the one of the getter. *)
Lemma new_spec (h : heap) (kw : gmap string pyval) (fget : pyval) :
  dom kw ⊆@{gset string} list_to_set parameters ->
  kw !! "fget" = Some fget ->
  plain h fget ->
  exists o',
    new kw h = Ret (Ok (VObj (fresh (dom h))), <[fresh (dom h) := o']> h) /\
    ob_type o' = THybridProperty /\
    (forall k, k ∈ parameters -> ob_dict o' !! k = Some (default VNone (kw !! k))) /\
    ob_dict o' !! "__name__" = getattr_opt h fget "__name__".
Proof.
  intros Hdom Hf (fd & Hfd & Hpriv).
  assert (Hne : fget <> VObj (fresh (dom h))).
  { intros ->. simpl in Hfd. rewrite fresh_None in Hfd. discriminate. }
  destruct (init_spec (fresh (dom h)) h (Object THybridProperty ∅ class_attrs Foreign)
              fget
              (default VNone (kw !! "fset")) (default VNone (kw !! "fdel"))
              (default VNone (kw !! "expr"))
              (default VNone (kw !! "custom_comparator"))
              (default VNone (kw !! "update_expr")) eq_refl)
    as (o' & Heq & Hty & Hd).
  specialize (Hd Hne). rewrite Hfd in Hd. simpl in Hd.
  exists o'. split; [|split; [|split]].
  - unfold new. rewrite bool_decide_eq_true_2 by assumption. rewrite Hf.
    rewrite (bind_Ok _ _ _ _ (fresh (dom h))) by reflexivity.
    rewrite (bind_Ok _ _ _ _ tt) by exact Heq.
    reflexivity.
  - exact Hty.
  - intros k Hk. rewrite Hd.
    destruct (parameters_not_assigned k Hk) as [-> ->].
    destruct (fd !! k) as [x|] eqn:Hx.
    + assert (Hs : startswith k "_" = true) by (eapply Hpriv; eauto).
      rewrite parameters_public in Hs by assumption. discriminate.
    + apply six_fields_lookup; assumption.
  - rewrite Hd. simpl.
    destruct fget as [| | | | | |b]; try discriminate.
    simpl in Hfd |- *. destruct (h !! b) as [ob|]; [|discriminate].
    simpl in Hfd. injection Hfd as <-.
    destruct (ob_dict ob !! "__name__") as [x|]; [reflexivity|].
    destruct (ob_slots ob !! "__name__") as [x|]; reflexivity.
Qed.





(** ** Rebinding *)

Lemma field_parameter (r : rebinding) : field r ∈ parameters.
Proof. destruct r; unfold parameters; simpl; set_solver. Qed.

Lemma defaults_lookup (o : object) (r : rebinding) (v : pyval) (k : string) :
  k ∈ parameters ->
  ({[field r := v]} ∪ filter public (ob_dict o)) !! k
  = if String.eqb k (field r) then Some v else ob_dict o !! k.
Proof.
  intros Hk. rewrite lookup_union.
  destruct (String.eqb_spec k (field r)) as [->|Hne].
  - rewrite lookup_singleton_eq. apply union_Some_l.
  - rewrite lookup_singleton_ne by congruence. rewrite (left_id None _).
    destruct (ob_dict o !! k) as [x|] eqn:Hx.
    + apply map_lookup_filter_Some_2; [assumption|].
      unfold public. simpl. apply parameters_public, Hk.
    + apply map_lookup_filter_None_2. left. assumption.
Qed.

Lemma defaults_dom (o : object) (r : rebinding) (v : pyval) :
  constructed o ->
  dom ({[field r := v]} ∪ filter public (ob_dict o))
    ⊆@{gset string} list_to_set parameters.
Proof.
  intros [_ Hpub] k Hk. apply elem_of_dom in Hk as [x Hx].
  apply lookup_union_Some_raw in Hx as [Hx|[_ Hx]].
  - apply lookup_singleton_Some in Hx as [<- _].
    apply elem_of_list_to_set, field_parameter.
  - apply Hpub. apply elem_of_dom. eauto.
Qed.

Lemma rebind_copy (r : rebinding) (self : addr) (v : pyval) :
  rebind r self v = _copy self {[field r := v]}.
Proof. destruct r; reflexivity. Qed.

(** What a rebinding of a constructed descriptor returns. *)
Lemma rebind_spec (h : heap) (self : addr) (o : object) (r : rebinding)
  (v fget : pyval) :
  h !! self = Some o ->
  constructed o ->
  ob_dict o !! "fget" = Some fget ->
  plain h (getter_after r v fget) ->
  exists o',
    rebind r self v h
    = Ret (Ok (VObj (fresh (dom h))), <[fresh (dom h) := o']> h) /\
    ob_type o' = THybridProperty /\
    (forall k, k ∈ parameters ->
               ob_dict o' !! k
               = if String.eqb k (field r) then Some v else ob_dict o !! k) /\
    ob_dict o' !! "__name__" = getattr_opt h (getter_after r v fget) "__name__".
Proof.
  intros Hself Hc Hfget Hplain.
  assert (Hf : ({[field r := v]} ∪ filter public (ob_dict o)) !! "fget"
               = Some (getter_after r v fget)).
  { rewrite defaults_lookup by (unfold parameters; set_solver).
    destruct r; simpl; try assumption; reflexivity. }
  destruct (new_spec h _ _ (defaults_dom o r v Hc) Hf Hplain)
    as (o' & Heq & Hty & Hfields & Hname).
  exists o'. split; [|split; [|split]].
  - rewrite rebind_copy. unfold _copy.
    rewrite (bind_Ok _ _ h h (ob_dict o)).
    + exact Heq.
    + unfold get_dict. simpl. rewrite Hself. reflexivity.
  - exact Hty.
  - intros k Hk. rewrite (Hfields k Hk), defaults_lookup by assumption.
    destruct (String.eqb k (field r)); [reflexivity|].
    destruct Hc as [Hall _]. rewrite Forall_forall in Hall.
    destruct (Hall k Hk) as [x ->]. reflexivity.
  - exact Hname.
Qed.


(** C7, as the code has it.  The [__name__] of the descriptor a rebinding
    returns is the [__name__] of that descriptor's getter.  The five
    rebindings that keep the getter therefore keep the name the original
    has from it; [getter] gives the name of the new getter. *)
Theorem rebind_name (h : heap) (self : addr) (o : object) (r : rebinding)
  (v fget : pyval) :
  h !! self = Some o ->
  constructed o ->
  ob_dict o !! "fget" = Some fget ->
  ob_dict o !! "__name__" = getattr_opt h fget "__name__" ->
  plain h (getter_after r v fget) ->
  exists (new : addr) (o' : object),
    rebind r self v h = Ret (Ok (VObj new), <[new := o']> h) /\
    (r <> Getter -> ob_dict o' !! "__name__" = ob_dict o !! "__name__") /\
    (r = Getter -> ob_dict o' !! "__name__" = getattr_opt h v "__name__").
Proof.
  intros Hself Hc Hfget Hname Hplain.
  destruct (rebind_spec h self o r v fget Hself Hc Hfget Hplain)
    as (o' & Heq & _ & _ & Hn).
  exists (fresh (dom h)), o'. split; [exact Heq|]. split.
  - intros Hr. rewrite Hn, Hname. destruct r; try reflexivity. contradiction.
  - intros ->. exact Hn.
Qed.

(** ** Events of a computation *)

Lemma calls_Ret {R : Type} (r : R) c args kwargs : ~ calls (Ret r) c args kwargs.
Proof. intros H. inversion H. Qed.

Lemma returns_Ret_inv {R : Type} (r s : R) : returns (Ret r) s -> s = r.
Proof. intros H. inversion H. reflexivity. Qed.

Lemma calls_pbind {R S : Type} (p : prog R) (f : R -> prog S) c args kwargs :
  calls (pbind p f) c args kwargs <->
  calls p c args kwargs \/ exists r, returns p r /\ calls (f r) c args kwargs.
Proof.
  induction p as [r|c0 a0 kw0 k IH]; simpl.
  - split.
    + intros H. right. exists r. split; [constructor|assumption].
    + intros [H|(r' & Hr & H)].
      * destruct (calls_Ret _ _ _ _ H).
      * apply returns_Ret_inv in Hr. subst. assumption.
  - split.
    + intros H. inversion H; subst.
      * left. constructor.
      * match goal with Hc : calls (pbind (k ?x) f) _ _ _ |- _ =>
          apply IH in Hc as [Hc|(r & Hr & Hc)];
          [left; eapply calls_later; eassumption
          |right; exists r; split; [eapply returns_Call; eassumption|assumption]]
        end.
    + intros [H|(r & Hr & H)].
      * inversion H; subst; [constructor|].
        eapply calls_later. apply IH. left. eassumption.
      * inversion Hr; subst.
        eapply calls_later. apply IH. right. exists r. split; eassumption.
Qed.

Lemma returns_pbind {R S : Type} (p : prog R) (f : R -> prog S) (s : S) :
  returns (pbind p f) s <-> exists r, returns p r /\ returns (f r) s.
Proof.
  induction p as [r|c0 a0 kw0 k IH]; simpl.
  - split.
    + intros H. exists r. split; [constructor|assumption].
    + intros (r' & Hr & H). apply returns_Ret_inv in Hr. subst. assumption.
  - split.
    + intros H. inversion H; subst.
      match goal with Hc : returns (pbind (k ?x) f) _ |- _ =>
        apply IH in Hc as (r & Hr & Hc);
        exists r; split; [eapply returns_Call; eassumption|assumption]
      end.
    + intros (r & Hr & H). inversion Hr; subst.
      eapply returns_Call. apply IH. exists r. split; eassumption.
Qed.

Lemma calls_bind {A B : Type} (m : M A) (f : A -> M B) (h : heap) c args kwargs :
  calls (bind m f h) c args kwargs <->
  calls (m h) c args kwargs \/
  exists x h', returns (m h) (Ok x, h') /\ calls (f x h') c args kwargs.
Proof.
  unfold bind. rewrite calls_pbind. split.
  - intros [H|([[x|e] h'] & Hr & H)]; [left; assumption| |].
    + right. exists x, h'. split; assumption.
    + destruct (calls_Ret _ _ _ _ H).
  - intros [H|(x & h' & Hr & H)]; [left; assumption|].
    right. exists (Ok x, h'). split; assumption.
Qed.

Lemma returns_bind {A B : Type} (m : M A) (f : A -> M B) (h : heap)
  (s : result B * heap) :
  returns (bind m f h) s <->
  (exists x h', returns (m h) (Ok x, h') /\ returns (f x h') s) \/
  (exists e h', returns (m h) (Exn e, h') /\ s = (Exn e, h')).
Proof.
  unfold bind. rewrite returns_pbind. split.
  - intros ([[x|e] h'] & Hr & H).
    + left. exists x, h'. split; assumption.
    + right. exists e, h'. split; [assumption|].
      apply returns_Ret_inv in H. assumption.
  - intros [(x & h' & Hr & H)|(e & h' & Hr & ->)].
    + exists (Ok x, h'). split; assumption.
    + exists (Exn e, h'). split; [assumption|constructor].
Qed.

Lemma quiet_bind {A B : Type} (m : M A) (f : A -> M B) :
  quiet m -> (forall a, quiet (f a)) -> quiet (bind m f).
Proof.
  intros Hm Hf h. destruct (Hm h) as [[a|e] E].
  - rewrite (bind_Ok _ _ _ _ _ E). apply Hf.
  - rewrite (bind_Exn _ _ _ _ _ E). eauto.
Qed.

Lemma quiet_getattr (v : pyval) (name : string) : quiet (getattr v name).
Proof. intros h. unfold getattr. destruct (getattr_opt h v name); eauto. Qed.

Lemma quiet_get_dict (v : pyval) : quiet (get_dict v).
Proof. intros h. unfold get_dict. destruct (dict_of h v); eauto. Qed.

Lemma quiet_mro_scan (unk : pyval) (self : addr) (classes : list pyval) :
  quiet (mro_scan unk self classes).
Proof.
  induction classes as [|c rest IH]; simpl.
  - intros h. eauto.
  - apply quiet_bind; [apply quiet_getattr|]. intros name.
    apply quiet_bind; [apply quiet_get_dict|]. intros d.
    destruct (dict_get d name) as [entry|]; [|exact IH].
    destruct (is_obj entry self); [apply quiet_getattr|exact IH].
Qed.

Lemma quiet_calls {A : Type} (m : M A) (h : heap) c args kwargs :
  quiet m -> ~ calls (m h) c args kwargs.
Proof. intros Hq. destruct (Hq h) as [r ->]. apply calls_Ret. Qed.

Lemma quiet_returns {A : Type} (m : M A) (h h' : heap) (r : result A) :
  quiet m -> returns (m h) (r, h') -> m h = Ret (r, h) /\ h' = h.
Proof.
  intros Hq H. destruct (Hq h) as [r' E]. rewrite E in H |- *.
  apply returns_Ret_inv in H. injection H as -> ->. split; reflexivity.
Qed.

(** ** The name of the attribute *)

Lemma is_obj_true (v : pyval) (a : addr) : is_obj v a = true <-> v = VObj a.
Proof.
  destruct v; simpl; try (split; [discriminate|congruence]).
  rewrite bool_decide_eq_true. split; congruence.
Qed.

Lemma mro_scan_spec (unk : pyval) (h : heap) (self : addr) (n : pyval)
  (classes : list pyval) :
  getattr_opt h (VObj self) "__name__" = Some n ->
  Forall (fun c => is_Some (dict_of h c)) classes ->
  exists name,
    mro_scan unk self classes h = Ret (Ok name, h) /\
    (Exists (declares h self n) classes -> name = n) /\
    (~ Exists (declares h self n) classes -> name = unk).
Proof.
  intros Hn Hall. induction Hall as [|c rest [d Hd] _ IH].
  - exists unk. split; [reflexivity|]. split; [|reflexivity].
    intros H. inversion H.
  - destruct IH as (name & Heq & Hyes & Hno). simpl.
    rewrite (bind_Ok _ _ h h n) by (apply getattr_Some; assumption).
    rewrite (bind_Ok _ _ h h d) by (unfold get_dict; rewrite Hd; reflexivity).
    assert (Hskip : ~ declares h self n c ->
                    exists name0,
                      mro_scan unk self rest h = Ret (Ok name0, h) /\
                      (Exists (declares h self n) (c :: rest) -> name0 = n) /\
                      (~ Exists (declares h self n) (c :: rest) -> name0 = unk)).
    { intros Hc. exists name. split; [exact Heq|]. split.
      - intros H. apply Exists_cons in H as [H|H]; [contradiction|auto].
      - intros H. apply Hno. intros H'. apply H. right. assumption. }
    destruct (dict_get d n) as [entry|] eqn:He.
    + destruct (is_obj entry self) eqn:Hi.
      * apply is_obj_true in Hi. subst entry.
        exists n. split; [apply getattr_Some; assumption|]. split; [reflexivity|].
        intros H. exfalso. apply H. left. exists d. split; assumption.
      * apply Hskip. intros (d' & Hd' & He'). rewrite Hd in Hd'.
        injection Hd' as <-. rewrite He in He'. injection He' as ->.
        simpl in Hi. rewrite bool_decide_eq_true_2 in Hi by reflexivity.
        discriminate.
    + apply Hskip. intros (d' & Hd' & He'). rewrite Hd in Hd'.
      injection Hd' as <-. congruence.
Qed.

Lemma alloc_eq (o : object) (h : heap) :
  alloc o h = Ret (Ok (fresh (dom h)), <[fresh (dom h) := o]> h).
Proof. reflexivity. Qed.

Lemma ExprComparator_init_eq (a : addr) (o : object) (h : heap) (cls e hy : pyval) :
  ExprComparator.__init__ a cls e hy (<[a := o]> h)
  = Ret (Ok tt,
         <[a := store_attr "hybrid" hy
                  (store_attr "expression" e (store_attr "cls" cls o))]> h).
Proof.
  unfold ExprComparator.__init__.
  rewrite (bind_Ok _ _ _ _ _ (setattr_insert _ _ _ _ _)).
  rewrite (bind_Ok _ _ _ _ _ (setattr_insert _ _ _ _ _)).
  apply setattr_insert.
Qed.

Lemma ExprComparator_new_spec (h : heap) (cls e hy : pyval) :
  exists o',
    ExprComparator.new cls e hy h
    = Ret (Ok (VObj (fresh (dom h))), <[fresh (dom h) := o']> h) /\
    ob_type o' = TExprComparator /\
    ob_dict o' !! "cls" = Some cls /\
    ob_dict o' !! "expression" = Some e /\
    ob_dict o' !! "hybrid" = Some hy.
Proof.
  eexists. split.
  - unfold ExprComparator.new.
    rewrite (bind_Ok _ _ _ _ _ (alloc_eq _ _)).
    rewrite (bind_Ok _ _ _ _ _ (ExprComparator_init_eq _ _ _ _ _ _)).
    reflexivity.
  - split; [reflexivity|]. repeat split; reflexivity.
Qed.

Lemma allocated_not_fresh (h : heap) (v : pyval) :
  is_Some (dict_of h v) -> v <> VObj (fresh (dom h)).
Proof.
  intros [d Hd] ->. simpl in Hd. rewrite fresh_None in Hd. discriminate.
Qed.

Lemma allocated_doc (h : heap) (v : pyval) :
  is_Some (dict_of h v) -> is_Some (getattr_opt h v "__doc__").
Proof.
  intros [d Hd]. destruct v; try discriminate. simpl in Hd |- *.
  destruct (h !! a) as [o|]; [|discriminate].
  destruct (ob_dict o !! "__doc__"); [eauto|].
  destruct (ob_slots o !! "__doc__"); eauto.
Qed.

Lemma getattr_allocated (h : heap) (v : pyval) (name : string) :
  is_Some (getattr_opt h v name) -> is_Some (dict_of h v).
Proof.
  intros [x Hx]. destruct v; try discriminate. simpl in Hx |- *.
  destruct (h !! a); [eauto|discriminate].
Qed.

(** [comparator(owner)] makes one call, of [applied h comparator] on the
    owner alone. *)
Lemma apply_comparator_calls (h : heap) (comparator owner : pyval) c args kwargs :
  calls (apply_comparator comparator owner h) c args kwargs ->
  c = Fn (applied h comparator) /\ args = [owner] /\ kwargs = [].
Proof.
  unfold apply_comparator, applied.
  destruct (code_of h comparator) as [|self expr|self cmp proxy]; intros H.
  - inversion H; subst; [auto|].
    match goal with Hc : calls (Ret _) _ _ _ |- _ => destruct (calls_Ret _ _ _ _ Hc) end.
  - unfold _expr in H. apply calls_bind in H as [H|(x & h' & Hr & H)].
    + inversion H; subst; [auto|].
      match goal with Hc : calls (Ret _) _ _ _ |- _ => destruct (calls_Ret _ _ _ _ Hc) end.
    + destruct (ExprComparator_new_spec h' owner x (VObj self)) as (o' & Heq & _).
      rewrite Heq in H. destruct (calls_Ret _ _ _ _ H).
  - inversion H; subst; [auto|].
    match goal with Hc : calls (Ret _) _ _ _ |- _ => destruct (calls_Ret _ _ _ _ Hc) end.
Qed.

Lemma apply_comparator_calls_here (h : heap) (comparator owner : pyval) :
  calls (apply_comparator comparator owner h) (Fn (applied h comparator)) [owner] [].
Proof.
  unfold apply_comparator, applied.
  destruct (code_of h comparator) as [|self expr|self cmp proxy].
  - constructor.
  - unfold _expr. apply calls_bind. left. constructor.
  - constructor.
Qed.

(** It can answer, and then the objects of the heap are as they were. *)
Lemma apply_comparator_returns (h : heap) (comparator owner : pyval) :
  exists x h',
    returns (apply_comparator comparator owner h) (Ok x, h') /\
    forall v name, is_Some (dict_of h v) ->
                   getattr_opt h' v name = getattr_opt h v name.
Proof.
  unfold apply_comparator.
  destruct (code_of h comparator) as [|self expr|self cmp proxy].
  - exists VNone, h. split; [|reflexivity].
    apply (returns_Call _ _ _ _ (Ok VNone)). constructor.
  - destruct (ExprComparator_new_spec h owner VNone (VObj self)) as (o' & Heq & _).
    exists (VObj (fresh (dom h))), (<[fresh (dom h) := o']> h). split.
    + unfold _expr. apply returns_bind. left. exists VNone, h. split.
      * apply (returns_Call _ _ _ _ (Ok VNone)). constructor.
      * rewrite Heq. constructor.
    + intros v name Hv. apply getattr_opt_insert_ne, allocated_not_fresh, Hv.
  - exists VNone, h. split; [|reflexivity].
    apply (returns_Call _ _ _ _ (Ok VNone)). constructor.
Qed.

Ltac quiet_step H Hq :=
  let Hr := fresh "Hr" in
  apply calls_bind in H as [H|(? & ? & Hr & H)];
  [destruct (quiet_calls _ _ _ _ _ Hq H)
  |apply (quiet_returns _ _ _ _ Hq) in Hr as [Hr ->]].

Ltac no_more_calls :=
  match goal with
  | Hc : calls (Ret _) _ _ _ |- _ => destruct (calls_Ret _ _ _ _ Hc)
  end.

Lemma quiet_doc (self : addr) (cdoc : pyval) :
  quiet (if truthy cdoc then ret cdoc else getattr (VObj self) "__doc__").
Proof. destruct (truthy cdoc); [intros h; eauto|apply quiet_getattr]. Qed.

Lemma quiet_iter (unk : pyval) (self : addr) (mro : pyval) :
  quiet (match mro with
         | VTuple classes => mro_scan unk self classes
         | _ => raise (TypeError "object is not iterable")
         end).
Proof. destruct mro; try (intros h; eauto; fail). apply quiet_mro_scan. Qed.

(** The events of [expr_comparator]: the comparator applied to the owner,
    and then the proxy called with the owner, the name the loop gives,
    the descriptor and the comparator's answer. *)
Lemma expr_comparator_calls (unk : pyval) (h : heap) (self : addr)
  (comparator proxy_attr owner : pyval) c args kwargs :
  calls (expr_comparator unk self comparator proxy_attr owner h) c args kwargs ->
  (c = Fn (applied h comparator) /\ args = [owner] /\ kwargs = []) \/
  (c = Fn proxy_attr /\
   exists classes name x doc,
     getattr_opt h owner "__mro__" = Some (VTuple classes) /\
     mro_scan unk self classes h = Ret (Ok name, h) /\
     args = [owner; name; VObj self; x] /\ kwargs = [("doc", doc)]).
Proof.
  intros H. unfold expr_comparator in H.
  quiet_step H (quiet_getattr owner "__mro__").
  unfold getattr in Hr.
  destruct (getattr_opt h owner "__mro__") as [mro|] eqn:Hmro; [|discriminate].
  injection Hr as <-.
  quiet_step H (quiet_iter unk self mro).
  destruct mro as [| | | |classes| |]; try discriminate.
  apply calls_bind in H as [H|(x1 & h1 & _ & H)].
  - left. apply apply_comparator_calls. exact H.
  - quiet_step H (quiet_getattr comparator "__doc__").
    match type of H with
    | calls (bind (if truthy ?d then _ else _) _ _) _ _ _ =>
        quiet_step H (quiet_doc self d)
    end.
    inversion H; subst; [|no_more_calls].
    right. split; [reflexivity|].
    eexists classes, _, _, _. repeat split; eassumption.
Qed.

(** C8, as the code has it.  The loop looks, in each class of the owner's
    [__mro__] in turn, at the entry under the descriptor's own [__name__]:
    the name is that [__name__] when some class has, under it, an entry
    that is the descriptor, and the constant [_UNKNOWN_ATTR_KEY] when no
    class has.  It is computed without a call, and it is the name with
    which [expr_comparator] calls the proxy. *)
Theorem published_name (unk : pyval) (h : heap) (self : addr) (n : pyval)
  (owner : pyval) (classes : list pyval) (comparator proxy_attr : pyval) :
  getattr_opt h (VObj self) "__name__" = Some n ->
  getattr_opt h owner "__mro__" = Some (VTuple classes) ->
  Forall (fun c => is_Some (dict_of h c)) classes ->
  is_Some (dict_of h comparator) ->
  exists name : pyval,
    mro_scan unk self classes h = Ret (Ok name, h) /\
    (Exists (declares h self n) classes -> name = n) /\
    (~ Exists (declares h self n) classes -> name = unk) /\
    (forall args kwargs,
        calls (expr_comparator unk self comparator proxy_attr owner h)
          (Fn proxy_attr) args kwargs ->
        args = [owner] \/ exists x, args = [owner; name; VObj self; x]) /\
    (exists x doc,
        calls (expr_comparator unk self comparator proxy_attr owner h)
          (Fn proxy_attr) [owner; name; VObj self; x] [("doc", doc)]).
Proof.
  intros Hn Hmro Hall Hcmp.
  destruct (mro_scan_spec unk h self n classes Hn Hall) as (name & Hscan & Hyes & Hno).
  exists name. split; [exact Hscan|]. split; [exact Hyes|]. split; [exact Hno|]. split.
  - intros args kwargs H. apply expr_comparator_calls in H
      as [(_ & -> & _)|(_ & classes' & name' & x & doc & Hmro' & Hscan' & -> & _)].
    + left. reflexivity.
    + right. rewrite Hmro in Hmro'. injection Hmro' as <-.
      rewrite Hscan in Hscan'. injection Hscan' as <-. eauto.
  - destruct (apply_comparator_returns h comparator owner) as (x & h1 & Hret & Hsame).
    assert (Hself : is_Some (dict_of h (VObj self)))
      by (eapply getattr_allocated; eauto).
    destruct (allocated_doc h comparator Hcmp) as [cdoc Hcdoc].
    destruct (allocated_doc h (VObj self) Hself) as [sdoc Hsdoc].
    exists x, (if truthy cdoc then cdoc else sdoc).
    unfold expr_comparator.
    rewrite (bind_Ok _ _ h h (VTuple classes)) by (apply getattr_Some; assumption).
    rewrite (bind_Ok _ _ h h name) by exact Hscan.
    apply calls_bind. right. exists x, h1. split; [exact Hret|].
    rewrite (bind_Ok _ _ h1 h1 cdoc)
      by (apply getattr_Some; rewrite Hsame; assumption).
    rewrite (bind_Ok _ _ h1 h1 (if truthy cdoc then cdoc else sdoc)).
    + constructor.
    + destruct (truthy cdoc); [reflexivity|].
      apply getattr_Some. rewrite Hsame; assumption.
Qed.

(** ** Construction of the class-level view *)

Lemma behaves_ret {A : Type} (a : A) (h : heap) P (Q : A -> heap -> Prop) :
  Q a h -> behaves (Ret (Ok a, h)) P Q.
Proof.
  intros HQ. split; [|split].
  - intros c args kwargs H. destruct (calls_Ret _ _ _ _ H).
  - intros x h' H. apply returns_Ret_inv in H. injection H as -> ->. exact HQ.
  - exists a, h. constructor.
Qed.

Lemma behaves_call (c : callee) (args : list pyval) (kwargs : list (string * pyval))
  (h : heap) (P : callee -> list pyval -> list (string * pyval) -> Prop)
  (Q : pyval -> heap -> Prop) :
  P c args kwargs -> (forall x, Q x h) -> behaves (call c args kwargs h) P Q.
Proof.
  intros HP HQ. unfold call. split; [|split].
  - intros c' args' kwargs' H. inversion H; subst; [exact HP|no_more_calls].
  - intros x h' H. inversion H as [|? ? ? ? x0 ? Hr]; subst.
    apply returns_Ret_inv in Hr. injection Hr as <- ->.
    apply HQ.
  - exists VNone, h. apply (returns_Call _ _ _ _ (Ok VNone)). constructor.
Qed.

Lemma behaves_bind {A B : Type} (m : M A) (f : A -> M B) (h : heap) P
  (Q1 : A -> heap -> Prop) (Q2 : B -> heap -> Prop) :
  behaves (m h) P Q1 ->
  (forall x h', Q1 x h' -> behaves (f x h') P Q2) ->
  behaves (bind m f h) P Q2.
Proof.
  intros (Hc & Hr & x & h' & Hx) Hf. split; [|split].
  - intros c args kwargs H. apply calls_bind in H as [H|(y & h1 & Hy & H)].
    + apply Hc, H.
    + destruct (Hf y h1 (Hr _ _ Hy)) as (Hc' & _). apply Hc', H.
  - intros y h2 H. apply returns_bind in H as [(z & h1 & Hz & H)|(e & h1 & _ & H)].
    + destruct (Hf z h1 (Hr _ _ Hz)) as (_ & Hr' & _). apply Hr', H.
    + discriminate.
  - destruct (Hf x h' (Hr _ _ Hx)) as (_ & _ & y & h2 & Hy).
    exists y, h2. apply returns_bind. left. exists x, h'. split; assumption.
Qed.

Lemma extends_refl (h : heap) : extends h h.
Proof. intros a o Ha. exists o. repeat split; auto. Qed.

Lemma extends_trans (h1 h2 h3 : heap) :
  extends h1 h2 -> extends h2 h3 -> extends h1 h3.
Proof.
  intros H12 H23 a o Ha.
  destruct (H12 a o Ha) as (o2 & Ha2 & Ht2 & Hc2 & Hs2 & Hd2).
  destruct (H23 a o2 Ha2) as (o3 & Ha3 & Ht3 & Hc3 & Hs3 & Hd3).
  exists o3. split; [assumption|]. repeat split; try congruence.
  intros k Hk. rewrite Hd3, Hd2 by assumption. reflexivity.
Qed.

Lemma extends_alloc (h : heap) (a : addr) (o : object) :
  h !! a = None -> extends h (<[a := o]> h).
Proof.
  intros Hnone b ob Hb. exists ob. split; [|repeat split; auto].
  rewrite lookup_insert_ne by congruence. exact Hb.
Qed.

Lemma extends_memo (h : heap) (self : addr) (o : object) (v : pyval) :
  h !! self = Some o ->
  extends h (<[self := with_dict ({["_expr_comparator" := v]} ∪ ob_dict o) o]> h).
Proof.
  intros Hself b ob Hb. destruct (decide (b = self)) as [->|Hne].
  - rewrite Hself in Hb. injection Hb as <-.
    eexists. split; [apply lookup_insert_eq|]. simpl. repeat split; auto.
    intros k Hk. rewrite lookup_union, lookup_singleton_ne by congruence.
    apply (left_id None _).
  - exists ob. split; [|repeat split; auto].
    rewrite lookup_insert_ne by congruence. exact Hb.
Qed.

Lemma extends_getattr (h h' : heap) (v : pyval) (name : string) :
  extends h h' -> is_Some (dict_of h v) -> name <> "_expr_comparator" ->
  getattr_opt h' v name = getattr_opt h v name.
Proof.
  intros Hext [d Hd] Hname. destruct v; try discriminate. simpl in Hd |- *.
  destruct (h !! a) as [o|] eqn:Ha; [|discriminate].
  destruct (Hext a o Ha) as (o' & -> & _ & _ & -> & Hdict).
  rewrite Hdict by assumption. reflexivity.
Qed.

Lemma extends_allocated (h h' : heap) (v : pyval) :
  extends h h' -> is_Some (dict_of h v) -> is_Some (dict_of h' v).
Proof.
  intros Hext [d Hd]. destruct v; try discriminate. simpl in Hd |- *.
  destruct (h !! a) as [o|] eqn:Ha; [|discriminate].
  destruct (Hext a o Ha) as (o' & -> & _). simpl. eauto.
Qed.

Lemma extends_foreign (h h' : heap) (v : pyval) :
  extends h h' -> foreign h v -> applied h' v = v.
Proof.
  intros Hext Hf. unfold applied. destruct v; try reflexivity. simpl in Hf |- *.
  destruct Hf as (o & Ha & Hcode).
  destruct (Hext a o Ha) as (o' & -> & _ & Hcode' & _).
  rewrite Hcode', Hcode. reflexivity.
Qed.

Lemma code_of_memo (h : heap) (self : addr) (o : object) (d : gmap string pyval)
  (v : pyval) :
  h !! self = Some o ->
  code_of (<[self := with_dict d o]> h) v = code_of h v.
Proof.
  intros Hself. destruct v; try reflexivity. simpl.
  destruct (decide (a = self)) as [->|Hne].
  - rewrite lookup_insert_eq, Hself. reflexivity.
  - rewrite lookup_insert_ne by congruence. reflexivity.
Qed.

Lemma behaves_weaken {A : Type} (p : prog (result A * heap)) P
  (Q Q' : A -> heap -> Prop) :
  behaves p P Q -> (forall x h, Q x h -> Q' x h) -> behaves p P Q'.
Proof.
  intros (Hc & Hr & Hx) HQ. split; [exact Hc|]. split; [|exact Hx].
  intros x h H. apply HQ, Hr, H.
Qed.

Lemma update_dict_eq (h : heap) (a : addr) (o : object) (d : gmap string pyval) :
  h !! a = Some o ->
  update_dict a d h = Ret (Ok tt, <[a := with_dict (d ∪ ob_dict o) o]> h).
Proof. intros Ha. unfold update_dict. rewrite Ha. reflexivity. Qed.

Lemma get_comparator_behaves (self : addr) (comparator : pyval) (h : heap) :
  behaves (_get_comparator self comparator h) (makes_proxy self)
    (fun r h' =>
       exists proxy_attr o',
         r = VObj (fresh (dom h)) /\ h' = <[fresh (dom h) := o']> h /\
         ob_code o' = Code_expr_comparator self comparator proxy_attr).
Proof.
  unfold _get_comparator.
  apply (behaves_bind _ _ _ _ (fun _ h1 => h1 = h)).
  - apply behaves_call; [repeat split|reflexivity].
  - intros proxy_attr h1 ->.
    rewrite (bind_Ok _ _ _ _ _ (alloc_eq _ _)).
    apply behaves_ret. eexists proxy_attr, _. repeat split.
Qed.

Lemma get_expr_behaves (self : addr) (expr : pyval) (h : heap) :
  behaves (_get_expr self expr h) (makes_proxy self)
    (fun r h' =>
       exists g1 o1 g2 o2 proxy_attr,
         h !! g1 = None /\ (<[g1 := o1]> h) !! g2 = None /\
         r = VObj g2 /\ h' = <[g2 := o2]> (<[g1 := o1]> h) /\
         ob_code o1 = Code_expr self expr /\
         ob_code o2 = Code_expr_comparator self (VObj g1) proxy_attr).
Proof.
  unfold _get_expr.
  rewrite (bind_Ok _ _ _ _ _ (alloc_eq _ _)).
  destruct (update_wrapper_spec (fresh (dom h)) expr h
              (local_function "_expr" "hybrid_property._get_expr.<locals>._expr"
                 (Code_expr self expr)))
    as (o1 & Heq & _ & Hcode & _).
  rewrite (bind_Ok _ _ _ _ _ Heq).
  eapply behaves_weaken; [apply get_comparator_behaves|].
  intros r h' (proxy_attr & o2 & -> & -> & Hcode2).
  exists (fresh (dom h)), o1, (fresh (dom (<[fresh (dom h) := o1]> h))), o2, proxy_attr.
  split; [apply fresh_None|]. split; [apply fresh_None|]. repeat split; assumption.
Qed.

Lemma get_expr_ready (h : heap) (self : addr) (expr : pyval) :
  behaves (_get_expr self expr h) (makes_proxy self)
    (fun r h' => ready h h' self expr r).
Proof.
  eapply behaves_weaken; [apply get_expr_behaves|].
  intros r h' (g1 & o1 & g2 & o2 & proxy_attr & H1 & H2 & -> & -> & Hc1 & Hc2).
  assert (Hne : g1 <> g2).
  { intros <-. rewrite lookup_insert_eq in H2. discriminate. }
  split.
  - eapply extends_trans; apply extends_alloc; assumption.
  - exists (VObj g1), proxy_attr. split.
    + simpl. rewrite lookup_insert_eq. exact Hc2.
    + unfold applied. simpl.
      rewrite lookup_insert_ne by congruence.
      rewrite lookup_insert_eq, Hc1. reflexivity.
Qed.

Lemma expr_comparator_fget_behaves (h : heap) (self : addr) (o : object)
  (cc e f : pyval) :
  h !! self = Some o ->
  ob_dict o !! "custom_comparator" = Some cc ->
  ob_dict o !! "expr" = Some e ->
  ob_dict o !! "fget" = Some f ->
  foreign h cc ->
  behaves (_expr_comparator_fget self h) (makes_proxy self)
    (fun r h' =>
       ready h h' self (if is_None cc then if is_None e then f else e else cc) r).
Proof.
  intros Hself Hcc He Hf Hforeign. unfold _expr_comparator_fget.
  rewrite (bind_Ok _ _ h h cc) by (eapply getattr_dict; eassumption).
  destruct (is_None cc) eqn:Hn; simpl.
  - rewrite (bind_Ok _ _ h h e) by (eapply getattr_dict; eassumption).
    destruct (is_None e); simpl.
    + rewrite (bind_Ok _ _ h h f) by (eapply getattr_dict; eassumption).
      apply get_expr_ready.
    + apply get_expr_ready.
  - eapply behaves_weaken; [apply get_comparator_behaves|].
    intros r h' (proxy_attr & o' & -> & -> & Hcode).
    assert (Hext : extends h (<[fresh (dom h) := o']> h))
      by apply extends_alloc, fresh_None.
    split; [exact Hext|].
    exists cc, proxy_attr. split.
    + simpl. rewrite lookup_insert_eq. exact Hcode.
    + apply extends_foreign with h; assumption.
Qed.

(** The memoized property: the closure is built on the first access, with
    the one call that makes the proxy class, and read back afterwards. *)
Lemma expr_comparator_behaves (h : heap) (self : addr) (o : object)
  (cc e f : pyval) :
  h !! self = Some o ->
  ob_dict o !! "custom_comparator" = Some cc ->
  ob_dict o !! "expr" = Some e ->
  ob_dict o !! "fget" = Some f ->
  foreign h cc ->
  memo_ok h self o (if is_None cc then if is_None e then f else e else cc) ->
  behaves (_expr_comparator self h) (makes_proxy self)
    (fun r h' =>
       ready h h' self (if is_None cc then if is_None e then f else e else cc) r /\
       exists o', h' !! self = Some o' /\ ob_dict o' !! "_expr_comparator" = Some r).
Proof.
  intros Hself Hcc He Hf Hforeign Hmemo.
  unfold _expr_comparator, memoized_property.
  rewrite (bind_Ok _ _ h h (ob_dict o))
    by (unfold get_dict; simpl; rewrite Hself; reflexivity).
  unfold memo_ok in Hmemo.
  destruct (ob_dict o !! "_expr_comparator") as [memo|] eqn:Hkey.
  - apply behaves_ret. split; [exact Hmemo|]. exists o. split; assumption.
  - eapply behaves_bind;
      [eapply expr_comparator_fget_behaves; eassumption|].
    intros res h' (Hext & cmp & proxy_attr & Hcode & Happ).
    destruct (Hext self o Hself) as (o' & Hself' & _).
    rewrite (bind_Ok _ _ _ _ _ (update_dict_eq _ _ _ _ Hself')).
    apply behaves_ret. split; [split|].
    + eapply extends_trans; [exact Hext|]. apply extends_memo. exact Hself'.
    + exists cmp, proxy_attr. split.
      * rewrite (code_of_memo _ _ _ _ _ Hself'). exact Hcode.
      * unfold applied in Happ |- *.
        rewrite (code_of_memo _ _ _ _ _ Hself'). exact Happ.
    + eexists. split; [apply lookup_insert_eq|]. simpl.
      rewrite lookup_union, lookup_singleton_eq. apply union_Some_l.
Qed.

(** What the first access leaves in the descriptor is a memoized value of
    the kind [memo_ok] asks for. *)
Lemma memo_established (h : heap) (self : addr) (o : object)
  (cc e f : pyval) (g : pyval) (h' : heap) :
  h !! self = Some o ->
  ob_dict o !! "custom_comparator" = Some cc ->
  ob_dict o !! "expr" = Some e ->
  ob_dict o !! "fget" = Some f ->
  foreign h cc ->
  ob_dict o !! "_expr_comparator" = None ->
  returns (_expr_comparator self h) (Ok g, h') ->
  exists o', h' !! self = Some o' /\
             memo_ok h' self o'
               (if is_None cc then if is_None e then f else e else cc).
Proof.
  intros Hself Hcc He Hf Hforeign Hkey Hret.
  assert (Hmemo : memo_ok h self o
                    (if is_None cc then if is_None e then f else e else cc))
    by (unfold memo_ok; rewrite Hkey; exact I).
  destruct (expr_comparator_behaves h self o cc e f Hself Hcc He Hf Hforeign Hmemo)
    as (_ & Hpost & _).
  destruct (Hpost _ _ Hret) as ((_ & Hready) & o' & Hself' & Hkey').
  exists o'. split; [exact Hself'|].
  unfold memo_ok. rewrite Hkey'. split; [apply extends_refl|exact Hready].
Qed.

(** C2.  On the owning class the view is built by priority: what gets
    called on the owner alone is the custom comparator when there is one,
    otherwise the expression builder when there is one, otherwise the
    getter.  The only other calls are the one that makes the proxy class
    and the one of the proxy on the owner, the name, the descriptor and
    the comparator's answer.  So the getter is not called on the class
    when a comparator or an expression builder is attached, and it is
    called on it, once the class has been scanned for the name, when
    neither is. *)
Theorem expr_view_priority (unk : pyval) (h : heap) (self : addr) (o : object)
  (cc e f target owner : pyval) :
  h !! self = Some o ->
  ob_dict o !! "custom_comparator" = Some cc ->
  ob_dict o !! "expr" = Some e ->
  ob_dict o !! "fget" = Some f ->
  foreign h cc ->
  (cc <> VNone /\ target = cc) \/
  (cc = VNone /\ e <> VNone /\ target = e) \/
  (cc = VNone /\ e = VNone /\ target = f) ->
  memo_ok h self o target ->
  owner <> VNone ->
  (forall c args kwargs,
      calls (__get__ unk self VNone owner h) c args kwargs ->
      makes_proxy self c args kwargs \/
      (c = Fn target /\ args = [owner] /\ kwargs = []) \/
      (exists p name x doc,
          c = Fn p /\ args = [owner; name; VObj self; x] /\ kwargs = [("doc", doc)])) /\
  (f <> target ->
   forall kwargs, ~ calls (__get__ unk self VNone owner h) (Fn f) [owner] kwargs) /\
  (forall n classes,
      getattr_opt h (VObj self) "__name__" = Some n ->
      getattr_opt h owner "__mro__" = Some (VTuple classes) ->
      Forall (fun c => is_Some (dict_of h c)) classes ->
      calls (__get__ unk self VNone owner h) (Fn target) [owner] []).
Proof.
  intros Hself Hcc He Hf Hforeign Hprio Hmemo Howner.
  assert (Ht : target = if is_None cc then if is_None e then f else e else cc).
  { destruct Hprio as [[Hn ->]|[(-> & Hn & ->)|(-> & -> & ->)]]; simpl.
    - apply is_None_false in Hn. rewrite Hn. reflexivity.
    - apply is_None_false in Hn. rewrite Hn. reflexivity.
    - reflexivity. }
  rewrite Ht in Hmemo.
  pose proof (expr_comparator_behaves h self o cc e f Hself Hcc He Hf Hforeign Hmemo)
    as (Hcalls & Hpost & g & h' & Hret).
  rewrite <- Ht in Hpost.
  assert (Hview : __get__ unk self VNone owner h
                  = bind (_expr_comparator self)
                      (fun f0 => apply_expr_comparator unk f0 owner) h).
  { unfold __get__. apply is_None_false in Howner. rewrite Howner. reflexivity. }
  assert (Hevents : forall c args kwargs,
             calls (__get__ unk self VNone owner h) c args kwargs ->
             makes_proxy self c args kwargs \/
             (c = Fn target /\ args = [owner] /\ kwargs = []) \/
             (exists p name x doc,
                 c = Fn p /\ args = [owner; name; VObj self; x] /\
                 kwargs = [("doc", doc)])).
  { intros c args kwargs H. rewrite Hview in H.
    apply calls_bind in H as [H|(g0 & h0 & Hr & H)].
    - left. apply Hcalls, H.
    - right. destruct (Hpost _ _ Hr) as ((_ & cmp & proxy_attr & Hcode & Happ) & _).
      unfold apply_expr_comparator in H. rewrite Hcode in H.
      apply expr_comparator_calls in H
        as [(-> & -> & ->)|(-> & classes & name & x & doc & _ & _ & -> & ->)].
      + left. rewrite Happ. repeat split.
      + right. eexists _, _, _, _. repeat split. }
  split; [exact Hevents|]. split.
  - intros Hne kwargs H. apply Hevents in H
      as [(Hc & _)|[(Hc & _)|(p & name & x & doc & _ & Ha & _)]]; congruence.
  - intros n classes Hn Hmro Hall. rewrite Hview.
    destruct (Hpost _ _ Hret) as ((Hext & cmp & proxy_attr & Hcode & Happ) & _).
    assert (Hn' : getattr_opt h' (VObj self) "__name__" = Some n).
    { rewrite (extends_getattr h h'); [assumption..| |discriminate].
      eapply getattr_allocated; eauto. }
    assert (Hmro' : getattr_opt h' owner "__mro__" = Some (VTuple classes)).
    { rewrite (extends_getattr h h'); [assumption..| |discriminate].
      eapply getattr_allocated; eauto. }
    assert (Hall' : Forall (fun c => is_Some (dict_of h' c)) classes).
    { eapply Forall_impl; [exact Hall|]. intros c. apply extends_allocated, Hext. }
    destruct (mro_scan_spec unk h' self n classes Hn' Hall') as (name & Hscan & _).
    apply calls_bind. right. exists g, h'. split; [exact Hret|].
    unfold apply_expr_comparator. rewrite Hcode. unfold expr_comparator.
    rewrite (bind_Ok _ _ h' h' (VTuple classes)) by (apply getattr_Some; assumption).
    rewrite (bind_Ok _ _ h' h' name) by exact Hscan.
    apply calls_bind. left. rewrite <- Happ. apply apply_comparator_calls_here.
Qed.

(** * The properties on the application *)

Ltac evaluated := vm_compute; reflexivity.

Lemma plain_function (a : addr) (name qualname : string) (h : heap) :
  h !! a = Some (App.function name qualname) -> plain h (VObj a).
Proof.
  intros Ha. exists ∅. split; [simpl; rewrite Ha; reflexivity|].
  apply map_Forall_empty.
Defined.

Lemma constructed_hybrid (fget fset fdel expr cc ue : pyval) (name qualname : string) :
  constructed (App.hybrid fget fset fdel expr cc ue name qualname).
Proof.
  split.
  - unfold parameters. repeat constructor; eexists; evaluated.
  - apply (bool_decide_unpack _). vm_compute. exact I.
Defined.

(** The descriptors of the application are what the constructor makes. *)
Example radius_constructed :
  new {[ "fget" := VObj 1; "fset" := VObj 2 ]} App.functions
  = Ret (Ok (VObj 10), <[10%positive := App.radius]> App.functions).
Proof. evaluated. Qed.

(** A first access to [Interval.length]: the proxy class is made, the
    expression builder is called on the class, and the proxy is called
    with the name found in the class. *)
Example length_view_trace :
  (run App.recording (__get__ App.unknown 11 VNone (VObj 20) App.world) []).2
  = [(Lib "attributes.create_proxied_attribute", [VObj 11]);
     (Fn (VObj 5), [VObj 20]);
     (Fn (VInt 5), [VObj 20; VStr "length"; VObj 11; VObj 63])].
Proof. evaluated. Qed.


Lemma set_delete_guard_witness :
  __set__ 10 (VObj 99) (VInt 3) App.world
  = Call (Fn (VObj 2)) [VObj 99; VInt 3] []
      (fun x => match x with
                | Ok _ => Ret (Ok VNone, App.world)
                | Exn e => Ret (Exn e, App.world)
                end) /\
  __delete__ 10 (VObj 99) App.world
  = Ret (Exn (AttributeError "can't delete attribute"), App.world).
Proof.
  destruct (set_delete_guard App.world 10 App.radius (VObj 2) VNone (VObj 99) (VInt 3))
    as (_ & Hset & Hdel & _); [evaluated|evaluated|evaluated|].
  split; [apply Hset; discriminate|apply Hdel; reflexivity].
Defined.

Lemma bulk_update_order_witness :
  ExprComparator._bulk_update_tuples (VObj 41) (VInt 25) App.world
  = Call (Method (VObj 31) "_bulk_update_tuples") [VInt 25] []
      (fun x => Ret (x, App.world)).
Proof.
  destruct (bulk_update_order App.world 41
              (App.bound_comparator (VObj 20) (VObj 31) (VObj 11))
              (VObj 20) (VObj 31) (VObj 11) (VObj 6) (VInt 25))
    as (Hattr & _ & _); [evaluated..|].
  apply Hattr. evaluated.
Defined.

Lemma bulk_update_passthrough_witness :
  ExprComparator._bulk_update_tuples (VObj 40) (VInt 25) App.world
  = Ret (Ok (VList [VTuple [VObj 30; VInt 25]]), App.world).
Proof.
  apply (bulk_update_passthrough App.world 40
           (App.bound_comparator (VObj 20) (VObj 30) (VObj 10))
           (VObj 30) (VObj 10) (VInt 25)); evaluated.
Defined.

Lemma operate_applies_op_witness :
  ExprComparator.operate (VObj 40) (VObj 8) [VInt 5] [] App.world
  = Call (Fn (VObj 8)) [VObj 30; VInt 5] [] (fun x => Ret (x, App.world)) /\
  ExprComparator.reverse_operate (VObj 40) (VObj 8) (VInt 5) [] App.world
  = Call (Fn (VObj 8)) [VInt 5; VObj 30] [] (fun x => Ret (x, App.world)).
Proof.
  destruct (operate_applies_op App.world 40
              (App.bound_comparator (VObj 20) (VObj 30) (VObj 10))
              (VObj 30) (VObj 8) [])
    as (Hop & Hrev); [evaluated|evaluated|].
  split; [apply Hop|apply Hrev].
Defined.

Lemma clause_element_cases_witness :
  Comparator.__clause_element__ (VObj 44) App.world
  = Call (Method (VObj 31) "__clause_element__") [] [] (fun x => Ret (x, App.world)).
Proof.
  destruct (clause_element_cases App.world 44 (App.comparator (VObj 31)) (VObj 31))
    as (Hhas & _); [evaluated|evaluated|].
  apply Hhas. evaluated.
Defined.


Lemma rebind_name_witness :
  exists (new : addr) (o' : object),
    rebind Setter 10 (VObj 2) App.world
    = Ret (Ok (VObj new), <[new := o']> App.world) /\
    ob_dict o' !! "__name__" = Some (VStr "radius").
Proof.
  destruct (rebind_name App.world 10 App.radius Setter (VObj 2) (VObj 1))
    as (new & o' & Heq & Hkeep & _).
  - evaluated.
  - apply constructed_hybrid.
  - evaluated.
  - evaluated.
  - apply (plain_function 1 "radius" "Interval.radius"). evaluated.
  - exists new, o'. split; [exact Heq|].
    rewrite Hkeep by discriminate. evaluated.
Defined.

Lemma published_name_witness :
  mro_scan App.unknown 10 [VObj 20; VObj 21] App.world
  = Ret (Ok (VStr "radius"), App.world).
Proof.
  destruct (published_name App.unknown App.world 10 (VStr "radius") (VObj 20)
              [VObj 20; VObj 21] (VObj 1) (VObj 70))
    as (name & Hscan & Hyes & _).
  - evaluated.
  - evaluated.
  - repeat constructor; eexists; evaluated.
  - eexists; evaluated.
  - rewrite Hscan, Hyes; [reflexivity|].
    left. eexists. split; evaluated.
Defined.

Lemma expr_view_priority_witness :
  (forall kwargs,
      ~ calls (__get__ App.unknown 11 VNone (VObj 20) App.world)
          (Fn (VObj 4)) [VObj 20] kwargs) /\
  calls (__get__ App.unknown 11 VNone (VObj 20) App.world) (Fn (VObj 5)) [VObj 20] [].
Proof.
  destruct (expr_view_priority App.unknown App.world 11 App.length
              VNone (VObj 5) (VObj 4) (VObj 5) (VObj 20))
    as (_ & Hnever & Hcalled).
  - evaluated.
  - evaluated.
  - evaluated.
  - evaluated.
  - exact I.
  - right. left. split; [reflexivity|]. split; [discriminate|reflexivity].
  - vm_compute. exact I.
  - discriminate.
  - split.
    + apply Hnever. discriminate.
    + apply (Hcalled (VStr "length") [VObj 20; VObj 21]).
      * evaluated.
      * evaluated.
      * repeat constructor; eexists; evaluated.
Defined.

(** ** Where the code departs from the description *)

(** C4.  The result of [operate] is whatever [op] answers.  With an [op]
    that answers its first argument the result is the very node the
    comparator holds, not a new one; with an [op] that answers its second
    argument the result is the operand as it was given, the integer 5,
    which no adapter has turned into a node. *)
Lemma operate_answer_not_new :
  getattr_opt App.world (VObj 40) "expression" = Some (VObj 30) /\
  (run App.answer_first
     (ExprComparator.operate (VObj 40) (VObj 8) [VInt 5] [] App.world) tt).1.1
  = Ok (VObj 30) /\
  (run App.answer_second
     (ExprComparator.operate (VObj 40) (VObj 8) [VInt 5] [] App.world) tt).1.1
  = Ok (VInt 5).
Proof. repeat split; evaluated. Qed.

(** C7.  [getter] with a function named [diameter] returns a descriptor
    named [diameter]; the original is named [radius]. *)
Lemma getter_renames :
  match getter 10 (VObj 3) App.world with
  | Ret (Ok (VObj new), h') =>
      getattr_opt h' (VObj new) "__name__" = Some (VStr "diameter") /\
      getattr_opt h' (VObj 10) "__name__" = Some (VStr "radius")
  | _ => False
  end.
Proof. vm_compute. split; reflexivity. Qed.

(** C8.  The class [Interval] holds, under the name [value], an entry that
    is the descriptor at address 12, whose [__name__] is [_get_value]; the
    loop looks under [_get_value] only and ends with the constant for an
    unknown name. *)
Lemma name_scan_misses_binding :
  App.world !! 20%positive = Some App.Interval /\
  dict_get (ob_dict App.Interval) (VStr "value") = Some (VObj 12) /\
  getattr_opt App.world (VObj 12) "__name__" = Some (VStr "_get_value") /\
  mro_scan App.unknown 12 [VObj 20; VObj 21] App.world
  = Ret (Ok App.unknown, App.world).
Proof. repeat split; evaluated. Qed.

(** C9.  The hybrid [radius] has no [update_expr] and the comparator at
    address 40 holds an expression node that is not a mapped attribute:
    [_bulk_update_tuples] raises nothing and pairs the node with the
    value. *)
Lemma bulk_update_raises_nothing :
  getattr_opt App.world (VObj 10) "update_expr" = Some VNone /\
  isinstance App.world (VObj 30) TQueryableAttribute = false /\
  ExprComparator._bulk_update_tuples (VObj 40) (VInt 25) App.world
  = Ret (Ok (VList [VTuple [VObj 30; VInt 25]]), App.world).
Proof. repeat split; evaluated. Qed.

(** C10.  When the extraction of the mapped attribute at address 31
    answers the integer 5, which is no expression node,
    [__clause_element__] returns 5 and raises nothing; and the comparator
    that holds the plain value 5 returns 5 itself, not a node around it. *)
Lemma clause_element_unchecked :
  is_has_clause_element App.world (VObj 31) = true /\
  (run App.answer_five
     (Comparator.__clause_element__ (VObj 44) App.world) tt).1.1
  = Ok (VInt 5) /\
  isinstance App.world (VInt 5) TColumnElement = false /\
  is_has_clause_element App.world (VInt 5) = false /\
  Comparator.__clause_element__ (VObj 43) App.world
  = Ret (Ok (VInt 5), App.world).
Proof. repeat split; evaluated. Qed.

(** * Further properties *)

(** ** Chains of decorators *)

Lemma run_pbind {W R S : Type} (env : handler W) (p : prog R) (f : R -> prog S)
  (w : W) :
  run env (pbind p f) w = run env (f (run env p w).1) (run env p w).2.
Proof.
  revert w. induction p as [r|c args kwargs k IH]; intros w; simpl.
  - reflexivity.
  - apply IH.
Qed.

Lemma run_bind {W A B : Type} (env : handler W) (m : M A) (f : A -> M B)
  (h : heap) (w : W) :
  run env (bind m f h) w
  = match run env (m h) w with
    | ((Ok x, h'), w') => run env (f x h') w'
    | ((Exn e, h'), w') => ((Exn e, h'), w')
    end.
Proof.
  unfold bind. rewrite run_pbind.
  destruct (run env (m h) w) as [[[x|e] h'] w']; reflexivity.
Qed.

Lemma run_call {W : Type} (env : handler W) (c : callee) (args : list pyval)
  (kwargs : list (string * pyval)) (h : heap) (w : W) :
  run env (call c args kwargs h) w
  = (((env w c args kwargs).1, h), (env w c args kwargs).2).
Proof. reflexivity. Qed.

Lemma decorate_loop_cons (d : pyval) (l : list pyval) (fn : pyval) :
  requirements.decorate_loop (d :: l) fn
  = bind (call (Fn d) [fn] []) (fun fn' => requirements.decorate_loop l fn').
Proof. reflexivity. Qed.

Lemma run_decorate_loop_app {W : Type} (env : handler W) (l1 l2 : list pyval)
  (fn : pyval) (h : heap) (w : W) :
  run env (requirements.decorate_loop (l1 ++ l2) fn h) w
  = run env (bind (requirements.decorate_loop l1 fn)
               (requirements.decorate_loop l2) h) w.
Proof.
  revert fn w. induction l1 as [|d l1 IH]; intros fn w.
  - reflexivity.
  - rewrite <- app_comm_cons, !decorate_loop_cons.
    rewrite (run_bind env (bind _ _)), !run_bind, run_call.
    destruct (env w (Fn d) [fn] []) as [[fn'|e] w']; simpl.
    + rewrite IH, run_bind. reflexivity.
    + reflexivity.
Qed.

(** X1.  Decorating with the decorators [ds1 ++ ds2] is decorating with
    [ds2] and then, when that succeeds, decorating the result with [ds1];
    an exception of a decorator of [ds2] ends the chain before any
    decorator of [ds1] is called.  The heap is not touched. *)
Theorem chain_decorators_split {W : Type} (env : handler W) (ds1 ds2 : list pyval)
  (fn : pyval) (h : heap) (w : W) :
  run env (requirements._chain_decorators_on (ds1 ++ ds2) fn h) w
  = run env (bind (requirements._chain_decorators_on ds2 fn)
               (requirements._chain_decorators_on ds1) h) w.
Proof.
  unfold requirements._chain_decorators_on, requirements.decorate.
  rewrite rev_app_distr. apply run_decorate_loop_app.
Qed.

Lemma chain_log_app (ap : pyval -> pyval -> pyval) (l1 l2 : list pyval) (fn : pyval) :
  chain_log ap (l1 ++ l2) fn
  = (chain_log ap l2 fn ++ chain_log ap l1 (foldr ap fn l2))%list.
Proof.
  induction l1 as [|d l1 IH]; simpl.
  - rewrite app_nil_r. reflexivity.
  - rewrite IH, foldr_app, <- app_assoc. reflexivity.
Qed.

Lemma run_decorate_loop (ap : pyval -> pyval -> pyval) (l : list pyval)
  (fn : pyval) (h : heap) (w : list (pyval * pyval)) :
  run (applying (fun d x => Ok (ap d x))) (requirements.decorate_loop l fn h) w
  = ((Ok (foldr ap fn (rev l)), h), (w ++ chain_log ap (rev l) fn)%list).
Proof.
  revert fn w. induction l as [|d l IH]; intros fn w.
  - simpl. rewrite app_nil_r. reflexivity.
  - rewrite decorate_loop_cons, run_bind, run_call. simpl.
    rewrite IH, foldr_app, chain_log_app, <- app_assoc. reflexivity.
Qed.

(** X2.  When every decorator answers, the decorators nest with the first
    one given outermost, [d1(d2(... dn(fn)))]; they are called from the
    last one given to the first, each on the result of the one before. *)
Theorem chain_decorators_nests (ap : pyval -> pyval -> pyval) (ds : list pyval)
  (fn : pyval) (h : heap) :
  run (applying (fun d x => Ok (ap d x)))
    (requirements._chain_decorators_on ds fn h) []
  = ((Ok (foldr ap fn ds), h), chain_log ap ds fn).
Proof.
  unfold requirements._chain_decorators_on, requirements.decorate.
  rewrite run_decorate_loop, rev_involutive. reflexivity.
Qed.

(** ** [hybrid_method] *)

Lemma setattr_eq (h : heap) (a : addr) (o : object) (name : string) (v : pyval) :
  h !! a = Some o ->
  setattr a name v h = Ret (Ok tt, <[a := store_attr name v o]> h).
Proof. intros Ha. unfold setattr. rewrite Ha. reflexivity. Qed.

Lemma getattr_opt_store_ne (h : heap) (a : addr) (o : object) (name k : string)
  (x : pyval) :
  h !! a = Some o -> k <> name ->
  getattr_opt (<[a := store_attr name x o]> h) (VObj a) k = getattr_opt h (VObj a) k.
Proof.
  intros Ha Hk. simpl. rewrite lookup_insert_eq, Ha.
  unfold store_attr. case_bool_decide; simpl.
  - rewrite lookup_insert_ne by congruence. reflexivity.
  - rewrite lookup_insert_ne by congruence. reflexivity.
Qed.

Lemma getattr_opt_store_eq (h : heap) (a : addr) (o : object) (name : string)
  (x : pyval) :
  ob_dict o !! name = None ->
  getattr_opt (<[a := store_attr name x o]> h) (VObj a) name = Some x.
Proof.
  intros Hd. simpl. rewrite lookup_insert_eq.
  unfold store_attr. case_bool_decide; simpl.
  - rewrite Hd, lookup_insert_eq. reflexivity.
  - rewrite lookup_insert_eq. reflexivity.
Qed.

(** What [expression] does to the heap. *)
Lemma expression_eq (h : heap) (self : addr) (o : object) (func expr d fd : pyval)
  (de : gmap string pyval) :
  h !! self = Some o ->
  members (ob_type o) = [] ->
  ob_dict o !! "func" = Some func ->
  expr <> VObj self ->
  func <> VObj self ->
  dict_of h expr = Some de ->
  de !! "__doc__" = None ->
  getattr_opt h expr "__doc__" = Some d ->
  getattr_opt h func "__doc__" = Some fd ->
  exists h',
    hybrid_method.expression self expr h = Ret (Ok (VObj self), h') /\
    getattr_opt h' (VObj self) "expr" = Some expr /\
    getattr_opt h' (VObj self) "func" = Some func /\
    getattr_opt h' expr "__doc__" = Some (if truthy d then d else fd) /\
    (forall v name,
        v <> VObj self -> (v = expr -> name <> "__doc__") ->
        getattr_opt h' v name = getattr_opt h v name).
Proof.
  intros Hself Hm Hfunc Hne Hnf Hde Hnodoc Hd Hfd.
  set (o1 := store_attr "expr" expr o).
  set (h1 := <[self := o1]> h).
  assert (Ho1 : ob_dict o1 = <["expr" := expr]> (ob_dict o)).
  { unfold o1. rewrite store_attr_dict by assumption. reflexivity. }
  assert (Hexpr1 : getattr_opt h1 (VObj self) "expr" = Some expr).
  { unfold h1. simpl. rewrite lookup_insert_eq, Ho1, lookup_insert_eq. reflexivity. }
  assert (Hfunc1 : getattr_opt h1 (VObj self) "func" = Some func).
  { unfold h1. simpl. rewrite lookup_insert_eq, Ho1.
    rewrite lookup_insert_ne by discriminate. rewrite Hfunc. reflexivity. }
  assert (Hother : forall v name, v <> VObj self ->
                     getattr_opt h1 v name = getattr_opt h v name).
  { intros v name Hv. apply getattr_opt_insert_ne. assumption. }
  unfold hybrid_method.expression.
  rewrite (bind_Ok _ _ _ _ _ (setattr_eq _ _ _ _ _ Hself)). fold o1 h1.
  rewrite (bind_Ok _ _ h1 h1 expr) by (apply getattr_Some; assumption).
  rewrite (bind_Ok _ _ h1 h1 d) by (apply getattr_Some; rewrite Hother; assumption).
  destruct (truthy d) eqn:Ht; cbn [negb].
  - rewrite (bind_Ok _ _ h1 h1 tt) by reflexivity.
    exists h1. split; [reflexivity|]. split; [assumption|]. split; [assumption|].
    split; [rewrite Hother; assumption|].
    intros v name Hv _. apply Hother, Hv.
  - destruct expr as [| | | | | |b]; try discriminate.
    simpl in Hde. destruct (h !! b) as [ob|] eqn:Hb; [|discriminate].
    simpl in Hde. injection Hde as <-.
    assert (Hb1 : h1 !! b = Some ob).
    { unfold h1. rewrite lookup_insert_ne by congruence. assumption. }
    rewrite (bind_Ok _ _ h1 (<[b := store_attr "__doc__" fd ob]> h1) tt).
    + exists (<[b := store_attr "__doc__" fd ob]> h1).
      split; [reflexivity|]. split; [|split; [|split]].
      * rewrite getattr_opt_insert_ne by congruence. assumption.
      * rewrite getattr_opt_insert_ne by congruence. assumption.
      * apply getattr_opt_store_eq. assumption.
      * intros v name Hv Hname.
        destruct v as [| | | | | |a]; try reflexivity.
        destruct (decide (a = b)) as [->|Hab].
        -- rewrite getattr_opt_store_ne by auto.
           apply Hother, Hv.
        -- rewrite getattr_opt_insert_ne by congruence. apply Hother, Hv.
    + rewrite (bind_Ok _ _ h1 h1 func) by (apply getattr_Some; assumption).
      rewrite (bind_Ok _ _ h1 h1 fd) by (apply getattr_Some; rewrite Hother; assumption).
      rewrite (bind_Ok _ _ h1 h1 (VObj b)) by (apply getattr_Some; assumption).
      simpl. apply setattr_eq. assumption.
Qed.

(** X3.  [hybrid_method.expression] changes the descriptor in place and
    returns it: afterwards class-level access binds the new expression
    function to the owner, instance-level access still binds [func], and
    an expression function without a docstring has been given the one of
    [func]. *)
Theorem hybrid_method_expression_in_place (h : heap) (self : addr) (o : object)
  (func expr d fd : pyval) (de : gmap string pyval) :
  h !! self = Some o ->
  members (ob_type o) = [] ->
  ob_dict o !! "func" = Some func ->
  expr <> VObj self ->
  func <> VObj self ->
  dict_of h expr = Some de ->
  de !! "__doc__" = None ->
  getattr_opt h expr "__doc__" = Some d ->
  getattr_opt h func "__doc__" = Some fd ->
  exists h',
    hybrid_method.expression self expr h = Ret (Ok (VObj self), h') /\
    getattr_opt h' expr "__doc__" = Some (if truthy d then d else fd) /\
    (forall owner,
        hybrid_method.__get__ self VNone owner h'
        = Call (Method expr "__get__") [owner; owner] [] (fun x => Ret (x, h'))) /\
    (forall instance owner, instance <> VNone ->
        hybrid_method.__get__ self instance owner h'
        = Call (Method func "__get__") [instance; owner] [] (fun x => Ret (x, h'))).
Proof.
  intros Hself Hm Hfunc Hne Hnf Hde Hnodoc Hd Hfd.
  destruct (expression_eq h self o func expr d fd de
              Hself Hm Hfunc Hne Hnf Hde Hnodoc Hd Hfd)
    as (h' & Heq & Hexpr & Hfunc' & Hdoc & _).
  exists h'. split; [exact Heq|]. split; [exact Hdoc|]. split.
  - intros owner. unfold hybrid_method.__get__. cbn [is_None].
    rewrite (bind_Ok _ _ h' h' expr) by (apply getattr_Some; assumption).
    reflexivity.
  - intros instance owner Hi. unfold hybrid_method.__get__.
    apply is_None_false in Hi. rewrite Hi.
    rewrite (bind_Ok _ _ h' h' func) by (apply getattr_Some; assumption).
    reflexivity.
Qed.


(** ** More on rebinding *)

Lemma six_fields_dom (fget fset fdel expr cc ue : pyval) (k : string) :
  is_Some (six_fields ∅ fget fset fdel expr cc ue !! k) -> k ∈ parameters.
Proof.
  unfold six_fields, parameters. intros [x Hx].
  repeat (apply lookup_insert_Some in Hx as [[<- _]|[_ Hx]];
          [apply (bool_decide_unpack _); vm_compute; exact I|]).
  rewrite lookup_empty in Hx. discriminate.
Qed.

Lemma assignments_private (k : string) :
  k ∈ WRAPPER_ASSIGNMENTS -> startswith k "_" = true.
Proof.
  intros Hk. unfold WRAPPER_ASSIGNMENTS in Hk.
  repeat (apply elem_of_cons in Hk; destruct Hk as [->|Hk]; [reflexivity|]).
  apply elem_of_nil in Hk. destruct Hk.
Qed.

(** The dictionary of the descriptor the constructor makes. *)
Lemma new_dict (h : heap) (kw fd : gmap string pyval) (fget : pyval) :
  dom kw ⊆@{gset string} list_to_set parameters ->
  kw !! "fget" = Some fget ->
  dict_of h fget = Some fd ->
  exists o',
    new kw h = Ret (Ok (VObj (fresh (dom h))), <[fresh (dom h) := o']> h) /\
    ob_type o' = THybridProperty /\
    forall k, ob_dict o' !! k
              = if String.eqb k "__wrapped__" then Some fget
                else match fd !! k with
                     | Some v => Some v
                     | None =>
                         match (if bool_decide (k ∈ WRAPPER_ASSIGNMENTS)
                                then getattr_opt h fget k else None) with
                         | Some v => Some v
                         | None =>
                             six_fields ∅ fget
                               (default VNone (kw !! "fset"))
                               (default VNone (kw !! "fdel"))
                               (default VNone (kw !! "expr"))
                               (default VNone (kw !! "custom_comparator"))
                               (default VNone (kw !! "update_expr")) !! k
                         end
                     end.
Proof.
  intros Hdom Hf Hfd.
  assert (Hne : fget <> VObj (fresh (dom h))) by (apply allocated_not_fresh; eauto).
  destruct (init_spec (fresh (dom h)) h (Object THybridProperty ∅ class_attrs Foreign)
              fget
              (default VNone (kw !! "fset")) (default VNone (kw !! "fdel"))
              (default VNone (kw !! "expr"))
              (default VNone (kw !! "custom_comparator"))
              (default VNone (kw !! "update_expr")) eq_refl)
    as (o' & Heq & Hty & Hd).
  specialize (Hd Hne). rewrite Hfd in Hd. simpl in Hd.
  exists o'. split; [|split; [exact Hty|exact Hd]].
  unfold new. rewrite bool_decide_eq_true_2 by assumption. rewrite Hf.
  rewrite (bind_Ok _ _ _ _ _ (alloc_eq _ _)).
  rewrite (bind_Ok _ _ _ _ _ Heq).
  reflexivity.
Qed.


(** Everything about what a rebinding of a constructed descriptor
    returns. *)
Lemma rebind_full (h : heap) (self : addr) (o : object) (r : rebinding)
  (v fget : pyval) :
  h !! self = Some o ->
  constructed o ->
  ob_dict o !! "fget" = Some fget ->
  plain h (getter_after r v fget) ->
  exists o',
    rebind r self v h
    = Ret (Ok (VObj (fresh (dom h))), <[fresh (dom h) := o']> h) /\
    (forall k, k ∈ parameters ->
               ob_dict o' !! k
               = if String.eqb k (field r) then Some v else ob_dict o !! k) /\
    constructed o' /\
    ob_dict o' !! "__wrapped__" = Some (getter_after r v fget) /\
    (forall fd, dict_of h (getter_after r v fget) = Some fd ->
                fd !! "_expr_comparator" = None ->
                ob_dict o' !! "_expr_comparator" = None).
Proof.
  intros Hself Hc Hfget Hplain.
  assert (Hf : ({[field r := v]} ∪ filter public (ob_dict o)) !! "fget"
               = Some (getter_after r v fget)).
  { rewrite defaults_lookup by (apply (bool_decide_unpack _); vm_compute; exact I).
    destruct r; simpl; try assumption; reflexivity. }
  destruct Hplain as (fd & Hfd & Hpriv).
  destruct (new_dict h _ fd _ (defaults_dom o r v Hc) Hf Hfd) as (o' & Heq & _ & Hd).
  assert (Hfields : forall k, k ∈ parameters ->
            ob_dict o' !! k
            = Some (default VNone (({[field r := v]} ∪ filter public (ob_dict o)) !! k))).
  { intros k Hk. rewrite Hd.
    destruct (parameters_not_assigned k Hk) as [-> ->].
    destruct (fd !! k) as [x|] eqn:Hx.
    - assert (Hs : startswith k "_" = true) by (eapply Hpriv; eauto).
      rewrite parameters_public in Hs by assumption. discriminate.
    - apply six_fields_lookup; assumption. }
  exists o'. split; [|split; [|split; [|split]]].
  - rewrite rebind_copy. unfold _copy.
    rewrite (bind_Ok _ _ h h (ob_dict o)); [exact Heq|].
    unfold get_dict. simpl. rewrite Hself. reflexivity.
  - intros k Hk. rewrite (Hfields k Hk), defaults_lookup by assumption.
    destruct (String.eqb k (field r)); [reflexivity|].
    destruct Hc as [Hall _]. rewrite Forall_forall in Hall.
    destruct (Hall k Hk) as [x ->]. reflexivity.
  - split.
    + apply Forall_forall. intros k Hk. rewrite (Hfields k Hk). eauto.
    + intros k Hk. apply elem_of_dom in Hk as [x Hx].
      apply map_lookup_filter_Some in Hx as [Hx Hpub]. unfold public in Hpub.
      simpl in Hpub. apply elem_of_list_to_set.
      rewrite Hd in Hx.
      destruct (String.eqb_spec k "__wrapped__") as [->|_]; [discriminate|].
      destruct (fd !! k) as [y|] eqn:Hy.
      { assert (Hs : startswith k "_" = true) by (eapply Hpriv; eauto).
        congruence. }
      case_bool_decide as Hin.
      { apply assignments_private in Hin. congruence. }
      eapply six_fields_dom. eauto.
  - rewrite Hd. reflexivity.
  - intros fd' Hfd' Hnone. rewrite Hfd in Hfd'. injection Hfd' as <-.
    rewrite Hd.
    replace (String.eqb "_expr_comparator" "__wrapped__") with false by reflexivity.
    rewrite Hnone.
    replace (bool_decide ("_expr_comparator" ∈ WRAPPER_ASSIGNMENTS)) with false
      by (vm_compute; reflexivity).
    destruct (six_fields ∅ (getter_after r v fget)
                (default VNone (({[field r := v]} ∪ filter public (ob_dict o)) !! "fset"))
                (default VNone (({[field r := v]} ∪ filter public (ob_dict o)) !! "fdel"))
                (default VNone (({[field r := v]} ∪ filter public (ob_dict o)) !! "expr"))
                (default VNone
                   (({[field r := v]} ∪ filter public (ob_dict o)) !! "custom_comparator"))
                (default VNone
                   (({[field r := v]} ∪ filter public (ob_dict o)) !! "update_expr"))
              !! "_expr_comparator") eqn:Hs; [|reflexivity].
    assert (Hin : "_expr_comparator" ∈ parameters) by (eapply six_fields_dom; eauto).
    apply (bool_decide_pack _) in Hin. vm_compute in Hin. destruct Hin.
Qed.

(** X5.  A descriptor whose dictionary holds a public entry that is not a
    parameter of the constructor cannot be rebound: each of the six
    decorators raises [TypeError], and the heap is as it was. *)
Theorem rebind_stray_key_raises (h : heap) (self : addr) (o : object)
  (k : string) (x : pyval) (r : rebinding) (v : pyval) :
  h !! self = Some o ->
  ob_dict o !! k = Some x ->
  startswith k "_" = false ->
  k ∉ parameters ->
  rebind r self v h
  = Ret (Exn (TypeError "__init__() got an unexpected keyword argument"), h).
Proof.
  intros Hself Hk Hpub Hnot.
  rewrite rebind_copy. unfold _copy.
  rewrite (bind_Ok _ _ h h (ob_dict o))
    by (unfold get_dict; simpl; rewrite Hself; reflexivity).
  unfold new. rewrite bool_decide_eq_false_2; [reflexivity|].
  intros Hsub. apply Hnot.
  apply (proj1 (elem_of_list_to_set (C := gset string) k parameters)).
  apply Hsub, elem_of_dom.
  exists x. apply lookup_union_Some_raw. right. split.
  - apply lookup_singleton_None. intros <-. apply Hnot, field_parameter.
  - apply map_lookup_filter_Some_2; assumption.
Qed.

(** X6.  A getter that carries a public attribute of its own hands it to
    the descriptor made from it ([update_wrapper] copies the getter's
    dictionary), and that descriptor can then not be rebound: every
    decorator raises [TypeError]. *)
Theorem getter_attribute_breaks_rebinding (h : heap) (kw fd : gmap string pyval)
  (fget : pyval) (k : string) (x : pyval) (r : rebinding) (v : pyval) :
  dom kw ⊆@{gset string} list_to_set parameters ->
  kw !! "fget" = Some fget ->
  dict_of h fget = Some fd ->
  fd !! k = Some x ->
  startswith k "_" = false ->
  k ∉ parameters ->
  exists (a : addr) (o' : object),
    new kw h = Ret (Ok (VObj a), <[a := o']> h) /\
    ob_dict o' !! k = Some x /\
    rebind r a v (<[a := o']> h)
    = Ret (Exn (TypeError "__init__() got an unexpected keyword argument"),
           <[a := o']> h).
Proof.
  intros Hdom Hf Hfd Hk Hpub Hnot.
  destruct (new_dict h kw fd fget Hdom Hf Hfd) as (o' & Heq & _ & Hd).
  assert (Hk' : ob_dict o' !! k = Some x).
  { rewrite Hd, Hk.
    destruct (String.eqb_spec k "__wrapped__") as [->|_]; [discriminate|reflexivity]. }
  exists (fresh (dom h)), o'. split; [exact Heq|]. split; [exact Hk'|].
  (* the stray entry makes the constructor refuse the keywords *)
  rewrite rebind_copy. unfold _copy.
  rewrite (bind_Ok _ _ _ (<[fresh (dom h) := o']> h) (ob_dict o'))
    by (unfold get_dict; simpl; rewrite lookup_insert_eq; reflexivity).
  unfold new. rewrite bool_decide_eq_false_2; [reflexivity|].
  intros Hsub. apply Hnot.
  apply (proj1 (elem_of_list_to_set (C := gset string) k parameters)).
  apply Hsub, elem_of_dom.
  exists x. apply lookup_union_Some_raw. right. split.
  - apply lookup_singleton_None. intros <-. apply Hnot, field_parameter.
  - apply map_lookup_filter_Some_2; assumption.
Qed.



(** X9.  A rebinding does not carry the memoized class-level view over:
    the new descriptor has no [_expr_comparator] in its dictionary even
    when the original has one, so it builds its own view on its first
    class-level access, while the original keeps its. *)
Theorem rebind_drops_memo (h : heap) (self : addr) (o : object) (r : rebinding)
  (v fget memo : pyval) (fd : gmap string pyval) :
  h !! self = Some o ->
  constructed o ->
  ob_dict o !! "fget" = Some fget ->
  ob_dict o !! "_expr_comparator" = Some memo ->
  plain h (getter_after r v fget) ->
  dict_of h (getter_after r v fget) = Some fd ->
  fd !! "_expr_comparator" = None ->
  exists (a : addr) (o' : object),
    rebind r self v h = Ret (Ok (VObj a), <[a := o']> h) /\
    ob_dict o' !! "_expr_comparator" = None /\
    getattr_opt (<[a := o']> h) (VObj self) "_expr_comparator" = Some memo.
Proof.
  intros Hself Hc Hfget Hmemo Hplain Hfd Hnone.
  destruct (rebind_full h self o r v fget Hself Hc Hfget Hplain)
    as (o' & Heq & _ & _ & _ & Hdrop).
  exists (fresh (dom h)), o'. split; [exact Heq|]. split.
  - eapply Hdrop; eassumption.
  - rewrite getattr_opt_insert_ne.
    + eapply getattr_opt_dict; eassumption.
    + intros Heq'. injection Heq' as Heq'.
      pose proof (fresh_None h) as Hn. rewrite <- Heq', Hself in Hn. discriminate.
Qed.


(** X11.  Attaching an expression builder, a comparator or an update
    builder changes nothing at instance level: the new descriptor gets,
    sets and deletes on an instance exactly as the original does. *)
Theorem rebind_keeps_value_mode (unk : pyval) (h : heap) (self : addr)
  (o : object) (r : rebinding) (v fget : pyval) :
  h !! self = Some o ->
  constructed o ->
  ob_dict o !! "fget" = Some fget ->
  plain h fget ->
  r = Expression \/ r = Comparator_ \/ r = Update_expression ->
  exists (a : addr) (h' : heap),
    rebind r self v h = Ret (Ok (VObj a), h') /\
    (forall instance owner, owner <> VNone -> instance <> VNone ->
        __get__ unk a instance owner h' = __get__ unk self instance owner h') /\
    (forall instance value,
        __set__ a instance value h' = __set__ self instance value h') /\
    (forall instance, __delete__ a instance h' = __delete__ self instance h').
Proof.
  intros Hself Hc Hfget Hplain Hr.
  assert (Hplain' : plain h (getter_after r v fget))
    by (destruct Hr as [ -> | [ -> | -> ] ]; exact Hplain).
  destruct (rebind_full h self o r v fget Hself Hc Hfget Hplain')
    as (o' & Heq & Hfields & _).
  assert (Hne : self <> fresh (dom h)).
  { intros Heq'. pose proof (fresh_None h) as Hnone.
    rewrite <- Heq', Hself in Hnone. discriminate. }
  set (a := fresh (dom h)) in *. set (h' := <[a := o']> h) in *.
  assert (Hself' : h' !! self = Some o)
    by (unfold h'; rewrite lookup_insert_ne by congruence; exact Hself).
  assert (Ha : h' !! a = Some o') by apply lookup_insert_eq.
  assert (Hsame : forall k, k ∈ ["fget"; "fset"; "fdel"] ->
                    ob_dict o' !! k = ob_dict o !! k /\ is_Some (ob_dict o !! k)).
  { intros k Hk. destruct Hc as [Hall _]. rewrite Forall_forall in Hall.
    assert (Hp : k ∈ parameters).
    { unfold parameters.
      repeat (apply elem_of_cons in Hk; destruct Hk as [->|Hk];
              [apply (bool_decide_unpack _); vm_compute; exact I|]).
      apply elem_of_nil in Hk. destruct Hk. }
    split; [|apply Hall, Hp]. rewrite (Hfields k Hp).
    destruct (String.eqb_spec k (field r)) as [->|_]; [|reflexivity].
    exfalso. destruct Hr as [ -> | [ -> | -> ] ]; simpl in Hk;
      repeat (apply elem_of_cons in Hk; destruct Hk as [Hk|Hk]; [discriminate|]);
      apply elem_of_nil in Hk; exact Hk. }
  exists a, h'. split; [exact Heq|]. split; [|split].
  - intros instance owner Ho Hi. unfold __get__.
    apply is_None_false in Ho. apply is_None_false in Hi. rewrite Ho, Hi.
    destruct (Hsame "fget") as [E [x Hx]];
      [apply (bool_decide_unpack _); vm_compute; exact I|].
    rewrite (bind_Ok _ _ h' h' x) by (eapply getattr_dict; [exact Ha|congruence]).
    rewrite (bind_Ok _ _ h' h' x) by (eapply getattr_dict; [exact Hself'|congruence]).
    reflexivity.
  - intros instance value. unfold __set__.
    destruct (Hsame "fset") as [E [x Hx]];
      [apply (bool_decide_unpack _); vm_compute; exact I|].
    rewrite (bind_Ok _ _ h' h' x) by (eapply getattr_dict; [exact Ha|congruence]).
    rewrite (bind_Ok _ _ h' h' x) by (eapply getattr_dict; [exact Hself'|congruence]).
    reflexivity.
  - intros instance. unfold __delete__.
    destruct (Hsame "fdel") as [E [x Hx]];
      [apply (bool_decide_unpack _); vm_compute; exact I|].
    rewrite (bind_Ok _ _ h' h' x) by (eapply getattr_dict; [exact Ha|congruence]).
    rewrite (bind_Ok _ _ h' h' x) by (eapply getattr_dict; [exact Hself'|congruence]).
    reflexivity.
Qed.

(** X12.  A descriptor made from a getter alone is read-only: [__set__]
    and [__delete__] raise [AttributeError] at once, [__get__] on an
    instance is the call of the getter, and the descriptor is named after
    the getter. *)
Theorem new_descriptor_read_only (unk : pyval) (h : heap) (kw : gmap string pyval)
  (fget : pyval) :
  dom kw ⊆@{gset string} list_to_set parameters ->
  kw !! "fget" = Some fget ->
  kw !! "fset" = None ->
  kw !! "fdel" = None ->
  plain h fget ->
  exists (a : addr) (o' : object),
    new kw h = Ret (Ok (VObj a), <[a := o']> h) /\
    h !! a = None /\
    ob_dict o' !! "__name__" = getattr_opt h fget "__name__" /\
    (forall instance value,
        __set__ a instance value (<[a := o']> h)
        = Ret (Exn (AttributeError "can't set attribute"), <[a := o']> h)) /\
    (forall instance,
        __delete__ a instance (<[a := o']> h)
        = Ret (Exn (AttributeError "can't delete attribute"), <[a := o']> h)) /\
    (forall instance owner, owner <> VNone -> instance <> VNone ->
        __get__ unk a instance owner (<[a := o']> h)
        = Call (Fn fget) [instance] [] (fun x => Ret (x, <[a := o']> h))).
Proof.
  intros Hdom Hf Hfset Hfdel Hplain.
  destruct (new_spec h kw fget Hdom Hf Hplain) as (o' & Heq & _ & Hfields & Hname).
  exists (fresh (dom h)), o'.
  split; [exact Heq|]. split; [apply fresh_None|]. split; [exact Hname|].
  assert (Ha : (<[fresh (dom h) := o']> h) !! fresh (dom h) = Some o')
    by apply lookup_insert_eq.
  split; [|split].
  - intros instance value. unfold __set__.
    rewrite (bind_Ok _ _ _ (<[fresh (dom h) := o']> h) VNone); [reflexivity|].
    eapply getattr_dict; [exact Ha|].
    rewrite Hfields by (apply (bool_decide_unpack _); vm_compute; exact I).
    rewrite Hfset. reflexivity.
  - intros instance. unfold __delete__.
    rewrite (bind_Ok _ _ _ (<[fresh (dom h) := o']> h) VNone); [reflexivity|].
    eapply getattr_dict; [exact Ha|].
    rewrite Hfields by (apply (bool_decide_unpack _); vm_compute; exact I).
    rewrite Hfdel. reflexivity.
  - intros instance owner Ho Hi. unfold __get__.
    apply is_None_false in Ho. apply is_None_false in Hi. rewrite Ho, Hi.
    rewrite (bind_Ok _ _ _ (<[fresh (dom h) := o']> h) fget); [reflexivity|].
    eapply getattr_dict; [exact Ha|].
    rewrite Hfields by (apply (bool_decide_unpack _); vm_compute; exact I).
    rewrite Hf. reflexivity.
Qed.

(** ** More on the class-level view *)

(** X13.  The closure of the class-level view is built once: after a
    first access has returned it, [_expr_comparator] gives the same
    closure back with no call at all, so the proxy class is not made
    again, and leaves the heap alone. *)
Theorem view_closure_memoized (h : heap) (self : addr) (o : object)
  (cc e f g : pyval) (h' : heap) :
  h !! self = Some o ->
  ob_dict o !! "custom_comparator" = Some cc ->
  ob_dict o !! "expr" = Some e ->
  ob_dict o !! "fget" = Some f ->
  foreign h cc ->
  returns (_expr_comparator self h) (Ok g, h') ->
  _expr_comparator self h' = Ret (Ok g, h').
Proof.
  intros Hself Hcc He Hf Hforeign Hret.
  assert (Hkey : exists o', h' !! self = Some o' /\
                            ob_dict o' !! "_expr_comparator" = Some g).
  { destruct (ob_dict o !! "_expr_comparator") as [memo|] eqn:Hmemo.
    - unfold _expr_comparator, memoized_property in Hret.
      rewrite (bind_Ok _ _ h h (ob_dict o)) in Hret
        by (unfold get_dict; simpl; rewrite Hself; reflexivity).
      rewrite Hmemo in Hret. apply returns_Ret_inv in Hret.
      injection Hret as <- <-. exists o. split; assumption.
    - assert (Hok : memo_ok h self o
                      (if is_None cc then if is_None e then f else e else cc))
        by (unfold memo_ok; rewrite Hmemo; exact I).
      destruct (expr_comparator_behaves h self o cc e f Hself Hcc He Hf Hforeign Hok)
        as (_ & Hpost & _).
      destruct (Hpost _ _ Hret) as (_ & Hk). exact Hk. }
  destruct Hkey as (o' & Hself' & Hg).
  unfold _expr_comparator, memoized_property.
  rewrite (bind_Ok _ _ h' h' (ob_dict o'))
    by (unfold get_dict; simpl; rewrite Hself'; reflexivity).
  rewrite Hg. reflexivity.
Qed.

Lemma expr_closure_result (h : heap) (self : addr) (expr cls : pyval)
  (c : pyval) (h' : heap) :
  returns (_expr self expr cls h) (Ok c, h') ->
  exists x o',
    c = VObj (fresh (dom h)) /\ h' = <[fresh (dom h) := o']> h /\
    ob_type o' = TExprComparator /\
    ob_dict o' !! "cls" = Some cls /\
    ob_dict o' !! "expression" = Some x /\
    ob_dict o' !! "hybrid" = Some (VObj self).
Proof.
  intros H. unfold _expr in H.
  apply returns_bind in H as [(x & h1 & Hr & H)|(e & h1 & Hr & H)]; [|discriminate].
  inversion Hr as [|? ? ? ? x0 ? Hr']; subst.
  apply returns_Ret_inv in Hr'. injection Hr' as _ ->.
  destruct (ExprComparator_new_spec h cls x (VObj self))
    as (o' & Heq & Hty & Hc & He & Hh).
  rewrite Heq in H. apply returns_Ret_inv in H. injection H as -> ->.
  exists x, o'. repeat split; assumption.
Qed.

Lemma expr_closure_returns (h : heap) (self : addr) (expr cls x : pyval) :
  exists o',
    returns (_expr self expr cls h)
      (Ok (VObj (fresh (dom h))), <[fresh (dom h) := o']> h) /\
    ob_dict o' !! "expression" = Some x.
Proof.
  destruct (ExprComparator_new_spec h cls x (VObj self))
    as (o' & Heq & _ & _ & He & _).
  exists o'. split; [|exact He].
  unfold _expr. apply returns_bind. left. exists x, h. split.
  - apply (returns_Call _ _ _ _ (Ok x)). constructor.
  - rewrite Heq. constructor.
Qed.


(** X15.  With a custom comparator, [expr_comparator] calls it on the
    owner and hands its answer to the proxy as it is, with no
    [ExprComparator] made around it and the heap untouched; the [doc]
    keyword is the comparator factory's docstring when it has a true one
    and the descriptor's otherwise; an exception of the comparator comes
    out before the proxy is called. *)
Theorem custom_comparator_unwrapped (unk : pyval) (h : heap) (self c : addr)
  (oc : object) (n cdoc sdoc owner proxy_attr : pyval) (classes : list pyval) :
  h !! c = Some oc ->
  ob_code oc = Foreign ->
  getattr_opt h (VObj c) "__doc__" = Some cdoc ->
  getattr_opt h (VObj self) "__doc__" = Some sdoc ->
  getattr_opt h (VObj self) "__name__" = Some n ->
  getattr_opt h owner "__mro__" = Some (VTuple classes) ->
  Forall (fun k => is_Some (dict_of h k)) classes ->
  exists name k,
    mro_scan unk self classes h = Ret (Ok name, h) /\
    expr_comparator unk self (VObj c) proxy_attr owner h
    = Call (Fn (VObj c)) [owner] [] k /\
    (forall e, k (Exn e) = Ret (Exn e, h)) /\
    (forall x,
        k (Ok x)
        = Call (Fn proxy_attr) [owner; name; VObj self; x]
            [("doc", if truthy cdoc then cdoc else sdoc)]
            (fun r => Ret (r, h))).
Proof.
  intros Hc Hcode Hcdoc Hsdoc Hn Hmro Hall.
  destruct (mro_scan_spec unk h self n classes Hn Hall) as (name & Hscan & _).
  exists name. eexists. split; [exact Hscan|]. split; [|split].
  - unfold expr_comparator.
    rewrite (bind_Ok _ _ h h (VTuple classes)) by (apply getattr_Some; assumption).
    rewrite (bind_Ok _ _ h h name) by exact Hscan.
    unfold bind at 1. unfold apply_comparator. simpl code_of. rewrite Hc, Hcode.
    unfold call. simpl pbind. reflexivity.
  - intros e. reflexivity.
  - intros x. cbn [pbind propagate fst snd].
    rewrite (bind_Ok _ _ h h cdoc) by (apply getattr_Some; assumption).
    rewrite (bind_Ok _ _ h h (if truthy cdoc then cdoc else sdoc)).
    + reflexivity.
    + destruct (truthy cdoc); [reflexivity|apply getattr_Some; assumption].
Qed.

(** X16.  The class-level view needs an owner with an [__mro__] and, as
    soon as that is not empty, a descriptor with a [__name__]: without
    either, [expr_comparator] raises [AttributeError] and calls neither
    the comparator nor the proxy. *)
Theorem view_needs_name_and_class (unk : pyval) (h : heap) (self : addr)
  (comparator proxy_attr owner : pyval) :
  (getattr_opt h owner "__mro__" = None ->
   expr_comparator unk self comparator proxy_attr owner h
   = Ret (Exn (AttributeError "__mro__"), h)) /\
  (forall c rest,
      getattr_opt h owner "__mro__" = Some (VTuple (c :: rest)) ->
      getattr_opt h (VObj self) "__name__" = None ->
      expr_comparator unk self comparator proxy_attr owner h
      = Ret (Exn (AttributeError "__name__"), h)).
Proof.
  split.
  - intros Hmro. unfold expr_comparator.
    rewrite (bind_Exn _ _ h h (AttributeError "__mro__")); [reflexivity|].
    unfold getattr. rewrite Hmro. reflexivity.
  - intros c rest Hmro Hn. unfold expr_comparator.
    rewrite (bind_Ok _ _ h h (VTuple (c :: rest))) by (apply getattr_Some; assumption).
    rewrite (bind_Exn _ _ h h (AttributeError "__name__")); [reflexivity|].
    simpl mro_scan.
    rewrite (bind_Exn _ _ h h (AttributeError "__name__")); [reflexivity|].
    unfold getattr. rewrite Hn. reflexivity.
Qed.

Lemma isinstance_alloc (h : heap) (o' : object) (x : pyval) (t : pytype) :
  ob_type o' <> t ->
  isinstance (<[fresh (dom h) := o']> h) x t = isinstance h x t.
Proof.
  intros Hty. destruct x as [| | | | | |b]; try reflexivity. simpl.
  destruct (decide (b = fresh (dom h))) as [->|Hb].
  - rewrite lookup_insert_eq, fresh_None. apply bool_decide_eq_false_2, Hty.
  - rewrite lookup_insert_ne by congruence. reflexivity.
Qed.

(** X17.  The comparator that [_expr] builds for a class translates a bulk
    assignment with that class: when the builder's answer is a mapped
    attribute the translation is that attribute's; otherwise the
    hybrid's [update_expr] is called with the owning class the view was
    built for, and the value. *)
Theorem built_comparator_bulk_update (h : heap) (self : addr) (o : object)
  (expr owner update_expr value c : pyval) (h' : heap) :
  h !! self = Some o ->
  ob_dict o !! "update_expr" = Some update_expr ->
  update_expr <> VNone ->
  returns (_expr self expr owner h) (Ok c, h') ->
  exists x,
    getattr_opt h' c "expression" = Some x /\
    (isinstance h x TQueryableAttribute = true ->
     ExprComparator._bulk_update_tuples c value h'
     = Call (Method x "_bulk_update_tuples") [value] [] (fun r => Ret (r, h'))) /\
    (isinstance h x TQueryableAttribute = false ->
     ExprComparator._bulk_update_tuples c value h'
     = Call (Fn update_expr) [owner; value] [] (fun r => Ret (r, h'))).
Proof.
  intros Hself Hue Hn Hret.
  destruct (expr_closure_result h self expr owner _ _ Hret)
    as (x & o' & -> & -> & Hty & Hcls & Hexpr & Hhyb).
  assert (Ha : (<[fresh (dom h) := o']> h) !! fresh (dom h) = Some o')
    by apply lookup_insert_eq.
  assert (Hself' : (<[fresh (dom h) := o']> h) !! self = Some o).
  { rewrite lookup_insert_ne; [exact Hself|].
    intros Heq. pose proof (fresh_None h) as Hnone.
    rewrite Heq, Hself in Hnone. discriminate. }
  assert (Hinst : isinstance (<[fresh (dom h) := o']> h) x TQueryableAttribute
                  = isinstance h x TQueryableAttribute).
  { apply isinstance_alloc. rewrite Hty. discriminate. }
  exists x. split; [eapply getattr_opt_dict; eassumption|].
  unfold ExprComparator._bulk_update_tuples.
  rewrite (bind_Ok _ _ _ (<[fresh (dom h) := o']> h) x)
    by (eapply getattr_dict; eassumption).
  rewrite Hinst. split; intros ->.
  - reflexivity.
  - rewrite (bind_Ok _ _ _ (<[fresh (dom h) := o']> h) (VObj self))
      by (eapply getattr_dict; eassumption).
    rewrite (bind_Ok _ _ _ (<[fresh (dom h) := o']> h) update_expr)
      by (eapply getattr_dict; eassumption).
    apply is_None_false in Hn. rewrite Hn. cbn [negb].
    rewrite (bind_Ok _ _ _ (<[fresh (dom h) := o']> h) owner)
      by (eapply getattr_dict; eassumption).
    reflexivity.
Qed.

(** ** The further properties on the application *)

Lemma constructed_decide (o : object) :
  bool_decide (Forall (fun k => is_Some (ob_dict o !! k)) parameters) = true ->
  bool_decide (dom (filter public (ob_dict o))
                 ⊆@{gset string} list_to_set parameters) = true ->
  constructed o.
Proof.
  intros H1 H2. split; eapply bool_decide_eq_true_1; eassumption.
Defined.

Lemma hybrid_method_expression_in_place_witness :
  exists h',
    hybrid_method.expression 70 (VObj 72) Site.world = Ret (Ok (VObj 70), h') /\
    getattr_opt h' (VObj 72) "__doc__"
    = Some (VStr "True when the point is inside.") /\
    hybrid_method.__get__ 70 VNone (VObj 20) h'
    = Call (Method (VObj 72) "__get__") [VObj 20; VObj 20] [] (fun x => Ret (x, h')).
Proof.
  destruct (hybrid_method_expression_in_place Site.world 70 Site.contains
              (VObj 71) (VObj 72) VNone (VStr "True when the point is inside.") ∅)
    as (h' & Heq & Hdoc & Hclass & _);
    [evaluated|evaluated|evaluated|discriminate|discriminate|evaluated|
     apply lookup_empty|evaluated|evaluated|].
  exists h'. split; [exact Heq|]. split; [exact Hdoc|]. apply Hclass.
Defined.


Lemma rebind_stray_key_raises_witness :
  setter 73 (VObj 2) Site.world
  = Ret (Exn (TypeError "__init__() got an unexpected keyword argument"), Site.world).
Proof.
  apply (rebind_stray_key_raises Site.world 73 Site.radius_with_info "info" VNone
           Setter (VObj 2)); [evaluated|evaluated|reflexivity|].
  intros H. apply (bool_decide_pack _) in H. vm_compute in H. exact H.
Defined.

Lemma getter_attribute_breaks_rebinding_witness :
  exists (a : addr) (o' : object),
    new Site.area_keywords Site.world = Ret (Ok (VObj a), <[a := o']> Site.world) /\
    ob_dict o' !! "note" = Some (VInt 1) /\
    rebind Expression a (VObj 5) (<[a := o']> Site.world)
    = Ret (Exn (TypeError "__init__() got an unexpected keyword argument"),
           <[a := o']> Site.world).
Proof.
  apply (getter_attribute_breaks_rebinding Site.world Site.area_keywords
           (ob_dict Site.annotated_getter) (VObj 74) "note" (VInt 1)
           Expression (VObj 5)).
  - apply (bool_decide_unpack _). vm_compute. exact I.
  - evaluated.
  - evaluated.
  - evaluated.
  - reflexivity.
  - intros H. apply (bool_decide_pack _) in H. vm_compute in H. exact H.
Defined.



Lemma rebind_drops_memo_witness :
  exists (a : addr) (o' : object),
    rebind Setter 75 (VObj 2) Site.world = Ret (Ok (VObj a), <[a := o']> Site.world) /\
    ob_dict o' !! "_expr_comparator" = None /\
    getattr_opt (<[a := o']> Site.world) (VObj 75) "_expr_comparator"
    = Some (VObj 76).
Proof.
  apply (rebind_drops_memo Site.world 75 Site.radius_visited Setter (VObj 2)
           (VObj 1) (VObj 76) ∅).
  - evaluated.
  - apply constructed_decide; evaluated.
  - evaluated.
  - evaluated.
  - apply (plain_function 1 "radius" "Interval.radius"). evaluated.
  - evaluated.
  - apply lookup_empty.
Defined.

Lemma first_access_returns (h : heap) (self : addr) (o : object) (cc e f : pyval) :
  h !! self = Some o ->
  ob_dict o !! "custom_comparator" = Some cc ->
  ob_dict o !! "expr" = Some e ->
  ob_dict o !! "fget" = Some f ->
  foreign h cc ->
  ob_dict o !! "_expr_comparator" = None ->
  exists g h', returns (_expr_comparator self h) (Ok g, h').
Proof.
  intros Hself Hcc He Hf Hforeign Hkey.
  assert (Hok : memo_ok h self o
                  (if is_None cc then if is_None e then f else e else cc))
    by (unfold memo_ok; rewrite Hkey; exact I).
  destruct (expr_comparator_behaves h self o cc e f Hself Hcc He Hf Hforeign Hok)
    as (_ & _ & Hex).
  exact Hex.
Defined.

Lemma view_closure_memoized_witness :
  exists g h',
    returns (_expr_comparator 10 App.world) (Ok g, h') /\
    _expr_comparator 10 h' = Ret (Ok g, h').
Proof.
  destruct (first_access_returns App.world 10 App.radius VNone VNone (VObj 1))
    as (g & h' & Hret); [evaluated|evaluated|evaluated|evaluated|exact I|evaluated|].
  exists g, h'. split; [exact Hret|].
  apply (view_closure_memoized App.world 10 App.radius VNone VNone (VObj 1) g h');
    [evaluated|evaluated|evaluated|evaluated|exact I|exact Hret].
Defined.

Lemma custom_comparator_unwrapped_witness :
  exists k,
    expr_comparator App.unknown 10 (VObj 5) (VObj 99) (VObj 20) App.world
    = Call (Fn (VObj 5)) [VObj 20] [] k /\
    k (Ok (VInt 7))
    = Call (Fn (VObj 99)) [VObj 20; VStr "radius"; VObj 10; VInt 7]
        [("doc", VNone)] (fun r => Ret (r, App.world)).
Proof.
  destruct (custom_comparator_unwrapped App.unknown App.world 10 5
              (App.function "length" "Interval.length")
              (VStr "radius") VNone VNone (VObj 20) (VObj 99) [VObj 20; VObj 21])
    as (name & k & Hscan & Heq & _ & Hproxy).
  - evaluated.
  - reflexivity.
  - evaluated.
  - evaluated.
  - evaluated.
  - evaluated.
  - repeat constructor; eexists; evaluated.
  - exists k. split; [exact Heq|].
    rewrite Hproxy.
    assert (Hname : Ret (Ok name, App.world)
                    = Ret (Ok (VStr "radius"), App.world) :> prog (result pyval * _)).
    { rewrite <- Hscan. evaluated. }
    injection Hname as ->. reflexivity.
Defined.


Lemma rebind_keeps_value_mode_witness :
  exists (a : addr) (h' : heap),
    rebind Expression 10 (VObj 5) App.world = Ret (Ok (VObj a), h') /\
    __set__ a (VObj 99) (VInt 3) h' = __set__ 10 (VObj 99) (VInt 3) h'.
Proof.
  destruct (rebind_keeps_value_mode App.unknown App.world 10 App.radius
              Expression (VObj 5) (VObj 1))
    as (a & h' & Heq & _ & Hset & _).
  - evaluated.
  - apply constructed_hybrid.
  - evaluated.
  - apply (plain_function 1 "radius" "Interval.radius"). evaluated.
  - left. reflexivity.
  - exists a, h'. split; [exact Heq|apply Hset].
Defined.

Lemma built_comparator_bulk_update_witness :
  exists c h',
    returns (_expr 11 (VObj 5) (VObj 20) App.world) (Ok c, h') /\
    ExprComparator._bulk_update_tuples c (VInt 25) h'
    = Call (Fn (VObj 6)) [VObj 20; VInt 25] [] (fun r => Ret (r, h')).
Proof.
  destruct (expr_closure_returns App.world 11 (VObj 5) (VObj 20) (VObj 30))
    as (o' & Hret & Hexpr).
  destruct (built_comparator_bulk_update App.world 11 App.length (VObj 5) (VObj 20)
              (VObj 6) (VInt 25) _ _ ltac:(evaluated) ltac:(evaluated)
              ltac:(discriminate) Hret)
    as (x & Hx & _ & Hupd).
  eexists _, _. split; [exact Hret|].
  apply Hupd.
  assert (Hx' : x = VObj 30).
  { rewrite (getattr_opt_dict _ _ o' "expression" (VObj 30)) in Hx;
      [congruence|apply lookup_insert_eq|exact Hexpr]. }
  rewrite Hx'. evaluated.
Defined.

Lemma new_descriptor_read_only_witness :
  exists (a : addr) (o' : object),
    new Site.diameter_keywords App.world = Ret (Ok (VObj a), <[a := o']> App.world) /\
    ob_dict o' !! "__name__" = Some (VStr "diameter") /\
    __set__ a (VObj 99) (VInt 3) (<[a := o']> App.world)
    = Ret (Exn (AttributeError "can't set attribute"), <[a := o']> App.world).
Proof.
  destruct (new_descriptor_read_only App.unknown App.world Site.diameter_keywords
              (VObj 3))
    as (a & o' & Heq & _ & Hname & Hset & _).
  - apply (bool_decide_unpack _). vm_compute. exact I.
  - evaluated.
  - evaluated.
  - evaluated.
  - apply (plain_function 3 "diameter" "Interval.diameter"). evaluated.
  - exists a, o'. split; [exact Heq|]. split; [|apply Hset].
    rewrite Hname. evaluated.
Defined.

Lemma view_needs_name_and_class_witness :
  expr_comparator App.unknown 10 (VObj 5) (VObj 99) (VInt 5) Site.world
  = Ret (Exn (AttributeError "__mro__"), Site.world) /\
  expr_comparator App.unknown 70 (VObj 5) (VObj 99) (VObj 20) Site.world
  = Ret (Exn (AttributeError "__name__"), Site.world).
Proof.
  split.
  - apply (view_needs_name_and_class App.unknown Site.world 10 (VObj 5) (VObj 99)
             (VInt 5)).
    reflexivity.
  - apply (proj2 (view_needs_name_and_class App.unknown Site.world 70 (VObj 5)
                    (VObj 99) (VObj 20)) (VObj 20) [VObj 21]); evaluated.
Defined.
